(** * Session-establishment orchestrator of [src/App.tsx]

  A shallow embedding of the React component [App]: the module-level
  configuration read from [import.meta.env], the room URL validator
  [checkRoomUrl], the three handlers [handleRoomUrl], [start] and [leave],
  and the part of the render function that enables or disables the two
  buttons.  Handlers are scripts that emit the calls they make on their
  collaborators ([setState], [daily.join], ...) in program order, so that
  statements about what is called, with which arguments and in which order
  are statements about lists of events. *)

From Stdlib Require Import String Ascii List Bool Arith Lia.
Import ListNotations.
Open Scope string_scope.
Open Scope list_scope.

Set Implicit Arguments.

(** ** JavaScript values, truthiness, [||] and template literals *)

Module Js.

(** The values the handlers move around: [undefined], [null] and strings.
    Booleans appear only as conditions and are modelled by [bool]. *)
Inductive JsVal : Type :=
| undefined
| null
| str (s : string).

Definition is_empty (s : string) : bool :=
  match s with EmptyString => true | String _ _ => false end.

(** ToBoolean: [undefined], [null] and the empty string are falsy. *)
Definition truthy (v : JsVal) : bool :=
  match v with
  | str s => negb (is_empty s)
  | undefined | null => false
  end.

(** [a || b] evaluates to [a] when [a] is truthy and to [b] otherwise. *)
Definition jor (a b : JsVal) : JsVal := if truthy a then a else b.

(** ToString, as applied by a template literal. *)
Definition to_string (v : JsVal) : string :=
  match v with
  | undefined => "undefined"
  | null => "null"
  | str s => s
  end.

(** A value of TypeScript type [string | null]. *)
Definition of_nullable (o : option string) : JsVal :=
  match o with Some s => str s | None => null end.

(** A value of type [string | undefined] (an environment variable). *)
Definition of_optional (o : option string) : JsVal :=
  match o with Some s => str s | None => undefined end.

Definition is_nullish (v : JsVal) : bool :=
  match v with undefined | null => true | str _ => false end.

(** [s.endsWith(suf)] *)
Definition endsWith (s suf : string) : bool :=
  Nat.leb (String.length suf) (String.length s)
  && String.eqb
       (substring (String.length s - String.length suf) (String.length suf) s)
       suf.

(** [s.includes(sub)] *)
Fixpoint includes (s sub : string) : bool :=
  prefix sub s
  || match s with
     | EmptyString => false
     | String _ rest => includes rest sub
     end.

End Js.

(** ** Regular expressions

  The fragment of the regular-expression syntax that the pattern of
  [checkRoomUrl] uses: literal characters, a negated one-character class
  [[^c]], sequencing, [?] and [+].  [RegExp.prototype.test] on a pattern
  anchored by [^] and [$] (no flags) decides membership of the whole input
  in the pattern's language; [test] below decides it with derivatives.
  A negated class matches every character but its own, line terminators
  included.  The pattern names ASCII characters only, so reading the
  input byte by byte accepts the same strings as reading it by UTF-16
  code unit. *)

Module Regex.

Inductive regex : Type :=
| Empty                         (* matches nothing *)
| Eps                           (* matches the empty string *)
| Lit (c : ascii)               (* the character c *)
| NotChar (c : ascii)           (* [^c] *)
| Seq (r1 r2 : regex)
| Alt (r1 r2 : regex)
| Opt (r : regex)               (* r? *)
| Plus (r : regex)              (* r+ *)
| Star (r : regex).             (* r*, the residue of r+ *)

(** A literal run of characters. *)
Fixpoint lit (s : string) : regex :=
  match s with
  | EmptyString => Eps
  | String c rest => Seq (Lit c) (lit rest)
  end.

(** The language of a pattern. *)
Inductive Matches : regex -> list ascii -> Prop :=
| MEps : Matches Eps []
| MLit c : Matches (Lit c) [c]
| MNotChar c d : d <> c -> Matches (NotChar c) [d]
| MSeq r1 r2 w1 w2 :
    Matches r1 w1 -> Matches r2 w2 -> Matches (Seq r1 r2) (w1 ++ w2)
| MAltL r1 r2 w : Matches r1 w -> Matches (Alt r1 r2) w
| MAltR r1 r2 w : Matches r2 w -> Matches (Alt r1 r2) w
| MOptNone r : Matches (Opt r) []
| MOptSome r w : Matches r w -> Matches (Opt r) w
| MPlus r w1 w2 :
    Matches r w1 -> Matches (Star r) w2 -> Matches (Plus r) (w1 ++ w2)
| MStarNil r : Matches (Star r) []
| MStarApp r w1 w2 :
    Matches r w1 -> Matches (Star r) w2 -> Matches (Star r) (w1 ++ w2).

Fixpoint nullable (r : regex) : bool :=
  match r with
  | Empty => false
  | Eps => true
  | Lit _ => false
  | NotChar _ => false
  | Seq r1 r2 => nullable r1 && nullable r2
  | Alt r1 r2 => nullable r1 || nullable r2
  | Opt _ => true
  | Plus r => nullable r
  | Star _ => true
  end.

Fixpoint deriv (a : ascii) (r : regex) : regex :=
  match r with
  | Empty => Empty
  | Eps => Empty
  | Lit c => if Ascii.eqb a c then Eps else Empty
  | NotChar c => if Ascii.eqb a c then Empty else Eps
  | Seq r1 r2 =>
      if nullable r1
      then Alt (Seq (deriv a r1) r2) (deriv a r2)
      else Seq (deriv a r1) r2
  | Alt r1 r2 => Alt (deriv a r1) (deriv a r2)
  | Opt r => deriv a r
  | Plus r => Seq (deriv a r) (Star r)
  | Star r => Seq (deriv a r) (Star r)
  end.

Fixpoint test_chars (r : regex) (w : list ascii) : bool :=
  match w with
  | [] => nullable r
  | a :: w' => test_chars (deriv a r) w'
  end.

(** [/^(r)$/.test(s)] *)
Definition test (r : regex) (s : string) : bool :=
  test_chars r (list_ascii_of_string s).

End Regex.

(** ** Module-level configuration and the validator *)

Import Js.

(** [import.meta.env] and [window.location.search], read once when the
  module is loaded.  An unset variable is [undefined]; [roomQs] is the
  result of [URLSearchParams.get], a string or [null]. *)
Record Env : Type := {
VITE_SERVER_URL : option string;
VITE_SERVER_AUTH : option string;
VITE_MANUAL_ROOM_ENTRY : option string;
VITE_SHOW_CONFIG : option string;
VITE_OPEN_MIC : option string;
roomQs : option string
}.

(** [let serverUrl = env.VITE_SERVER_URL;
   if (serverUrl && !serverUrl.endsWith("/")) serverUrl += "/";] *)
Definition serverUrl (env : Env) : JsVal :=
match VITE_SERVER_URL env with
| Some s =>
    if truthy (str s) && negb (endsWith s "/") then str (s ++ "/") else str s
| None => undefined
end.

Definition serverAuth (env : Env) : JsVal := of_optional (VITE_SERVER_AUTH env).

(** [env.VITE_MANUAL_ROOM_ENTRY ? false : true] *)
Definition autoRoomCreation (env : Env) : bool :=
if truthy (of_optional (VITE_MANUAL_ROOM_ENTRY env)) then false else true.

Definition showConfigOptions (env : Env) : JsVal :=
of_optional (VITE_SHOW_CONFIG env).

Definition isOpenMic (env : Env) : bool :=
if truthy (of_optional (VITE_OPEN_MIC env)) then true else false.

(** The pattern [^(https?:\/\/[^.]+\.daily\.co\/[^/]+)$]. *)
Definition room_url_pattern : Regex.regex :=
Regex.Seq (Regex.lit "http")
  (Regex.Seq (Regex.Opt (Regex.Lit "s"))
     (Regex.Seq (Regex.lit "://")
        (Regex.Seq (Regex.Plus (Regex.NotChar "."))
           (Regex.Seq (Regex.lit ".daily.co/")
              (Regex.Plus (Regex.NotChar "/")))))).

(** [(url) => !!(url && pattern.test(url))] *)
Definition checkRoomUrl (url : option string) : bool :=
match url with
| None => false
| Some s => truthy (str s) && Regex.test room_url_pattern s
end.


(** ** The state of the component *)

Module State.

(** [type State = "idle" | "configuring" | ... | "error"] *)
Inductive t : Type :=
| idle
| configuring
| requesting_agent
| connecting
| connected
| started
| finished
| error.

Definition eqb (a b : t) : bool :=
  match a, b with
  | idle, idle | configuring, configuring
  | requesting_agent, requesting_agent | connecting, connecting
  | connected, connected | started, started | finished, finished
  | error, error => true
  | _, _ => false
  end.

End State.

(** The six [useState] cells of [App]. *)
Record AppState : Type := {
  state : State.t;
  error : option string;
  startAudioOff : bool;
  roomUrl : option string;
  roomError : bool;
  capacityError : string
}.

(** The initial values passed to [useState]. *)
Definition init (env : Env) : AppState := {|
  state := if truthy (showConfigOptions env) then State.idle
           else State.configuring;
  error := None;
  startAudioOff := false;
  (* roomQs || null *)
  roomUrl := if truthy (of_nullable (roomQs env)) then roomQs env else None;
  (* (roomQs && checkRoomUrl(roomQs)) || false *)
  roomError := if truthy (of_nullable (roomQs env))
               then (if checkRoomUrl (roomQs env) then true else false)
               else false;
  capacityError := ""
|}.

(** ** The provisioning response *)

Module Response.

(** Modelled from the spec: the type of the value [fetch_start_agent]
    resolves to.  The function is imported from [./actions], which is not
    part of the sources; the spec gives the response shape
    [{ result: { url, token } } | { error: ..., detail?: { message } }].
    [start] also reads [room_url] from it.  A field that is absent is
    [undefined]; [result] is [None] when it is absent or [null], the two
    cases in which reading [data.result.url] throws.  [detail] is only
    ever logged and is left out. *)
Record Result : Type := { url : JsVal; token : JsVal }.

Record t : Type := {
  error : JsVal;
  result : option Result;
  room_url : JsVal
}.

End Response.

(** [data?.result?.url], [data?.result?.token] and [data?.room_url], where
    [data] is [None] when the variable holds a falsy value. *)
Definition opt_result (data : option Response.t) : option Response.Result :=
  match data with
  | Some d => Response.result d
  | None => None
  end.

Definition opt_result_url (data : option Response.t) : JsVal :=
  match opt_result data with
  | Some r => Response.url r
  | None => undefined
  end.

Definition opt_result_token (data : option Response.t) : JsVal :=
  match opt_result data with
  | Some r => Response.token r
  | None => undefined
  end.

Definition opt_room_url (data : option Response.t) : JsVal :=
  match data with
  | Some d => Response.room_url d
  | None => undefined
  end.

(** ** Calls on collaborators, and scripts that make them *)

(** What a handler does to the outside, in program order. *)
Inductive Event : Type :=
| SetState (s : State.t)
| SetError (msg : string)
| SetStartAudioOff (b : bool)
| SetRoomUrl (url : option string)
| SetRoomError (b : bool)
| SetCapacityError (msg : string)
| FetchStartAgent (endpoint : string) (auth : JsVal)
| FetchStartBot (endpoint authorization : string) (room_url token : JsVal)
| DailyJoin (url token : JsVal) (videoSource startAudioOff : bool)
| DailyLeave
| DailyDestroy.

(** How an awaited promise settles. *)
Inductive Settled (A : Type) : Type :=
| Fulfilled (a : A)
| Rejected.
Arguments Rejected {A}.

(** How a block of statements completes: normally, by a [return]
    statement, or by an exception. *)
Inductive Completion (A : Type) : Type :=
| Normal (a : A)
| Returned
| Thrown.
Arguments Returned {A}.
Arguments Thrown {A}.

Definition Script (A : Type) : Type := (list Event * Completion A)%type.

Definition events {A} (m : Script A) : list Event := fst m.
Definition completion {A} (m : Script A) : Completion A := snd m.

Definition ret {A} (a : A) : Script A := ([], Normal a).

Definition bind {A B} (m : Script A) (k : A -> Script B) : Script B :=
  match m with
  | (tr, Normal a) => (tr ++ events (k a), completion (k a))
  | (tr, Returned) => (tr, Returned)
  | (tr, Thrown) => (tr, Thrown)
  end.

Definition emit (e : Event) : Script unit := ([e], Normal tt).

Definition return_ {A} : Script A := ([], Returned).

Definition throw {A} : Script A := ([], Thrown).

(** [await p], where issuing [p] is the event [e]. *)
Definition await {A} (e : Event) (o : Settled A) : Script A :=
  ([e], match o with Fulfilled a => Normal a | Rejected => Thrown end).

(** [try { body } catch (e) { handler }] *)
Definition try_catch {A} (body handler : Script A) : Script A :=
  match body with
  | (tr, Thrown) => (tr ++ events handler, completion handler)
  | _ => body
  end.

Declare Scope script_scope.
Delimit Scope script_scope with script.
Notation "x <- m ;; k" := (bind m (fun x => k))
  (at level 61, m at next level, right associativity) : script_scope.
Notation "m ;; k" := (bind m (fun _ => k))
  (at level 61, right associativity) : script_scope.
Open Scope script_scope.

Definition setState (s : State.t) : Script unit := emit (SetState s).
Definition setError (msg : string) : Script unit := emit (SetError msg).
Definition setRoomError (b : bool) : Script unit := emit (SetRoomError b).
Definition setCapacityError (msg : string) : Script unit :=
  emit (SetCapacityError msg).

(** What the collaborators do in one run of a handler: whether [useDaily]
    gave a call object, and how each awaited promise settles. *)
Record World : Type := {
  daily : bool;
  create_room : Settled (option Response.t);
  join : Settled unit;
  leave_settles : Settled unit;
  destroy_settles : Settled unit
}.

(** ** The handlers *)

Definition handleRoomUrl (env : Env) (st : AppState) : Script unit :=
  if (autoRoomCreation env && truthy (serverUrl env))
     || checkRoomUrl (roomUrl st)
  then setRoomError false ;; setState State.configuring
  else setRoomError true.

Definition capacity_message : string :=
  "We are currently at capacity for this demo. Please try again later.".

(** Both failure branches of the provisioning step. *)
Definition report_capacity {A} : Script A :=
  setCapacityError capacity_message ;;
  setState State.configuring ;;
  return_.

(** The body of [if (import.meta.env.VITE_SERVER_URL) { ... }]; its value
    is what the variable [data] holds afterwards. *)
Definition request_agent (env : Env) (w : World) : Script (option Response.t) :=
  setState State.requesting_agent ;;
  try_catch
    (data <- await (FetchStartAgent
                      (to_string (serverUrl env) ++ "create_room")
                      (serverAuth env))
                   (create_room w) ;;
     match data with
     | Some d =>
         if negb (truthy (Response.error d)) then
           (* data.result.url throws when data.result is nullish *)
           r <- match Response.result d with
                | Some r => ret r
                | None => throw
                end ;;
           emit (FetchStartBot
                   (to_string (serverUrl env) ++ "start_bot")
                   ("Bearer " ++ to_string (serverAuth env))
                   (Response.url r) (Response.token r)) ;;
           ret data
         else report_capacity
     | None => report_capacity
     end)
    report_capacity.

Definition start (env : Env) (w : World) (st : AppState) : Script unit :=
  if negb (daily w)
     || (negb (truthy (of_nullable (roomUrl st))) && negb (autoRoomCreation env))
  then return_
  else
    data <- (if truthy (of_optional (VITE_SERVER_URL env))
             then request_agent env w
             else ret None) ;;
    setState State.connecting ;;
    try_catch
      (await (DailyJoin
                (jor (opt_result_url data) (of_nullable (roomUrl st)))
                (jor (opt_result_token data) (str ""))
                false
                (startAudioOff st))
             (join w))
      (setError ("Unable to join room: '"
                 ++ to_string (jor (opt_room_url data) (of_nullable (roomUrl st)))
                 ++ "'") ;;
       setState State.error ;;
       return_) ;;
    setState State.connected.

(** [daily?.leave()] and [daily?.destroy()] call nothing when [daily] is
    [null]. *)
Definition leave (env : Env) (w : World) : Script unit :=
  (if daily w then await DailyLeave (leave_settles w) else ret tt) ;;
  (if daily w then await DailyDestroy (destroy_settles w) else ret tt) ;;
  setState (if truthy (showConfigOptions env) then State.idle
            else State.configuring).

(** ** Rendering: which controls are live *)

(** The [disabled] attribute of the Next button. *)
Definition next_disabled (env : Env) (st : AppState) : bool :=
  (truthy (of_nullable (roomQs env)) && negb (roomError st))
  || (autoRoomCreation env && negb (truthy (serverUrl env))).

(** The [disabled] attribute of the Start button. *)
Definition start_disabled (st : AppState) : bool :=
  negb (State.eqb (state st) State.configuring).

(** What the user can do. *)
Inductive Action : Type :=
| ClickNext
| ClickStart
| ClickLeave
| ToggleStartAudioOff
| EditRoomUrl (url : option string).

(** [App] renders, in this order of tests: the alert for [error], the
    session for [connected], the device card for every other state but
    [idle], and the room card for [idle]. *)
Definition offered (env : Env) (st : AppState) (a : Action) : bool :=
  match state st with
  | State.error => false
  | State.connected =>
      match a with ClickLeave => true | _ => false end
  | State.idle =>
      match a with
      | ClickNext => negb (next_disabled env st)
      | EditRoomUrl _ => true
      | _ => false
      end
  | _ =>
      match a with
      | ClickStart => negb (start_disabled st)
      | ToggleStartAudioOff => true
      | _ => false
      end
  end.

(** The handler behind each control, closed over the state of the render
    that displayed it. *)
Definition handler (env : Env) (w : World) (st : AppState) (a : Action)
  : Script unit :=
  match a with
  | ClickNext => handleRoomUrl env st
  | ClickStart => start env w st
  | ClickLeave => leave env w
  | ToggleStartAudioOff => emit (SetStartAudioOff (negb (startAudioOff st)))
  | EditRoomUrl url => emit (SetRoomUrl url)
  end.

(** The effect of a state setter on the cells; other events leave them
    alone. *)
Definition apply_event (st : AppState) (e : Event) : AppState :=
  match e with
  | SetState s =>
      {| state := s; error := error st; startAudioOff := startAudioOff st;
         roomUrl := roomUrl st; roomError := roomError st;
         capacityError := capacityError st |}
  | SetError msg =>
      {| state := state st; error := Some msg;
         startAudioOff := startAudioOff st; roomUrl := roomUrl st;
         roomError := roomError st; capacityError := capacityError st |}
  | SetStartAudioOff b =>
      {| state := state st; error := error st; startAudioOff := b;
         roomUrl := roomUrl st; roomError := roomError st;
         capacityError := capacityError st |}
  | SetRoomUrl url =>
      {| state := state st; error := error st;
         startAudioOff := startAudioOff st; roomUrl := url;
         roomError := roomError st; capacityError := capacityError st |}
  | SetRoomError b =>
      {| state := state st; error := error st;
         startAudioOff := startAudioOff st; roomUrl := roomUrl st;
         roomError := b; capacityError := capacityError st |}
  | SetCapacityError msg =>
      {| state := state st; error := error st;
         startAudioOff := startAudioOff st; roomUrl := roomUrl st;
         roomError := roomError st; capacityError := msg |}
  | _ => st
  end.

Definition apply_events (st : AppState) (tr : list Event) : AppState :=
  fold_left apply_event tr st.

(** The cells after a handler has run to its end. *)
Definition after (env : Env) (w : World) (st : AppState) (a : Action)
  : AppState :=
  apply_events st (events (handler env w st a)).

(** The states the component can be in.  Handlers suspend at each [await],
    so setter calls of handlers started in different renders interleave:
    any event of a handler that some reachable render offered may land on
    any reachable state. *)
Inductive Reachable (env : Env) : AppState -> Prop :=
| reach_init : Reachable env (init env)
| reach_event st st0 a w e :
    Reachable env st ->
    Reachable env st0 ->
    offered env st0 a = true ->
    In e (events (handler env w st0 a)) ->
    Reachable env (apply_event st e).

(** The successive values of [state] that a list of events sets. *)
Definition states_set (tr : list Event) : list State.t :=
  flat_map (fun e => match e with SetState s => [s] | _ => [] end) tr.

(** The arguments of the [daily.join] calls in a list of events. *)
Definition joins (tr : list Event) : list (JsVal * JsVal) :=
  flat_map (fun e => match e with
                     | DailyJoin u t _ _ => [(u, t)]
                     | _ => []
                     end) tr.

(** The characters of a string, in order. *)
Definition chars (s : string) : list ascii := list_ascii_of_string s.

(** ** The room URL as the specification words it

    Protocol, exactly one subdomain label before the provider domain, and
    exactly one path segment with no trailing slash.  A label is a
    non-empty run of characters that holds neither the label separator
    nor the path separator; a path segment is a non-empty run without the
    path separator. *)
Definition is_label (s : string) : Prop :=
  s <> "" /\ ~ In "."%char (chars s) /\ ~ In "/"%char (chars s).

Definition is_segment (s : string) : Prop :=
  s <> "" /\ ~ In "/"%char (chars s).

Definition single_level_room_url (s : string) : Prop :=
  exists scheme label room,
    s = (scheme ++ "://" ++ label ++ ".daily.co/" ++ room)%string
    /\ (scheme = "http" \/ scheme = "https")
    /\ is_label label
    /\ is_segment room.

(** ** Vocabulary of the claims *)

(** The states that some transition produces. *)
Definition live_states : list State.t :=
  [State.idle; State.configuring; State.requesting_agent;
   State.connecting; State.connected; State.error].

(** [start] gets past its guard. *)
Definition start_proceeds (env : Env) (w : World) (st : AppState) : Prop :=
  daily w = true
  /\ (truthy (of_nullable (roomUrl st)) = true \/ autoRoomCreation env = true).

(** The provisioning outcomes the claim calls failures: a thrown transport
    error, or a body that carries an error. *)
Definition provisioning_failed (o : Settled (option Response.t)) : Prop :=
  o = Rejected
  \/ exists d, o = Fulfilled (Some d) /\ truthy (Response.error d) = true.

(** What [start] does after a successful provisioning call. *)
Definition after_join (w : World) (msg : string) : list Event :=
  match join w with
  | Fulfilled _ => [SetState State.connected]
  | Rejected => [SetError msg; SetState State.error]
  end.

Definition is_leave (e : Event) : bool :=
  match e with DailyLeave => true | _ => false end.

Definition is_destroy (e : Event) : bool :=
  match e with DailyDestroy => true | _ => false end.

(** How many events of a list satisfy [p]. *)
Definition occurrences (p : Event -> bool) (tr : list Event) : nat :=
  length (filter p tr).

(** The state [leave] goes back to. *)
Definition start_state (env : Env) : State.t :=
  if truthy (showConfigOptions env) then State.idle else State.configuring.

(** The provisioning result's token, when provisioning ran and the token
    is a non-empty string. *)
Definition provisioned_token (env : Env) (w : World) : option string :=
  if truthy (of_optional (VITE_SERVER_URL env)) then
    match create_room w with
    | Fulfilled data =>
        match opt_result_token data with
        | str s => if is_empty s then None else Some s
        | undefined | null => None
        end
    | Rejected => None
    end
  else None.

(** ** Concrete configurations used below *)

(** Nothing set: no provisioning backend, manual entry not forced, no
    landing step, no [room_url] in the query string. *)
Definition env_bare : Env := {|
  VITE_SERVER_URL := None;
  VITE_SERVER_AUTH := None;
  VITE_MANUAL_ROOM_ENTRY := None;
  VITE_SHOW_CONFIG := None;
  VITE_OPEN_MIC := None;
  roomQs := None
|}.

(** As [env_bare], with the landing step shown. *)
Definition env_landing : Env := {|
  VITE_SERVER_URL := None;
  VITE_SERVER_AUTH := None;
  VITE_MANUAL_ROOM_ENTRY := None;
  VITE_SHOW_CONFIG := Some "1";
  VITE_OPEN_MIC := None;
  roomQs := None
|}.

(** A provisioning backend, and optionally a room URL in the query. *)
Definition env_server (qs : option string) : Env := {|
  VITE_SERVER_URL := Some "https://api.example.com";
  VITE_SERVER_AUTH := Some "secret";
  VITE_MANUAL_ROOM_ENTRY := None;
  VITE_SHOW_CONFIG := Some "1";
  VITE_OPEN_MIC := None;
  roomQs := qs
|}.

(** The success body [{ result: { url, token } }]. *)
Definition response_ok (u t : string) : Response.t := {|
  Response.error := undefined;
  Response.result := Some {| Response.url := str u; Response.token := str t |};
  Response.room_url := undefined
|}.

(** The failure body [{ error: "capacity" }]. *)
Definition response_capacity : Response.t := {|
  Response.error := str "capacity";
  Response.result := None;
  Response.room_url := undefined
|}.

Definition world (present : bool) (r : Settled (option Response.t))
  (j : Settled unit) : World := {|
  daily := present;
  create_room := r;
  join := j;
  leave_settles := Fulfilled tt;
  destroy_settles := Fulfilled tt
|}.

(** ** What the render function shows *)

(** The four [return] statements of [App], in the order of their tests. *)
Inductive View : Type :=
| AlertView
| SessionView
| ConfigureCard
| RoomSetupCard.

Definition view (st : AppState) : View :=
  if State.eqb (state st) State.error then AlertView
  else if State.eqb (state st) State.connected then SessionView
  else if negb (State.eqb (state st) State.idle) then ConfigureCard
  else RoomSetupCard.

(** A [State] is a string literal. *)
Definition state_key (s : State.t) : string :=
  match s with
  | State.idle => "idle"
  | State.configuring => "configuring"
  | State.requesting_agent => "requesting_agent"
  | State.connecting => "connecting"
  | State.connected => "connected"
  | State.started => "started"
  | State.finished => "finished"
  | State.error => "error"
  end.

(** The object literal [status_text], as its list of keys and values. *)
Definition status_text : list (string * string) :=
  [("configuring", "Let's go!");
   ("requesting_agent", "Requesting agent...");
   ("requesting_token", "Requesting token...");
   ("connecting", "Connecting to room...")].

(** [obj[key]], [None] standing for [undefined]. *)
Fixpoint lookup (key : string) (obj : list (string * string)) : option string :=
  match obj with
  | [] => None
  | (k, v) :: rest => if String.eqb key k then Some v else lookup key rest
  end.

(** The label of the Start button, [status_text[state]]. *)
Definition start_label (st : AppState) : option string :=
  lookup (state_key (state st)) status_text.

(** The capacity notice is rendered when [capacityError] is truthy. *)
Definition capacity_notice_shown (st : AppState) : bool :=
  match view st with
  | ConfigureCard => truthy (str (capacityError st))
  | _ => false
  end.

(** ** Handlers in flight

    A handler suspends at each [await], so the calls of handlers started
    from different renders interleave while each handler keeps its own
    program order.  A configuration holds the cells and, for every handler
    in flight, the calls it has still to make.  Letting any two calls be
    separated, also where no [await] stands between them, admits every
    schedule the event loop can produce. *)
Definition Config : Type := (AppState * list (list Event))%type.

Inductive Step (env : Env) : Config -> Config -> Prop :=
| step_click st pool a w :
    offered env st a = true ->
    Step env (st, pool) (st, events (handler env w st a) :: pool)
| step_call st before e rest after_ :
    Step env (st, before ++ (e :: rest) :: after_)
             (apply_event st e, before ++ rest :: after_).

Inductive Runs (env : Env) : Config -> Prop :=
| runs_init : Runs env (init env, [])
| runs_step c c' : Runs env c -> Step env c c' -> Runs env c'.

(** No call of [tr] sets the state to [error] unless a message is held
    already ([have]) or an earlier call of [tr] sets one. *)
Fixpoint message_first (have : bool) (tr : list Event) : bool :=
  match tr with
  | [] => true
  | SetError _ :: rest => message_first true rest
  | SetState State.error :: rest => have && message_first have rest
  | _ :: rest => message_first have rest
  end.

Definition has_message (st : AppState) : bool :=
  match error st with Some _ => true | None => false end.

Definition is_create_room (e : Event) : bool :=
  match e with FetchStartAgent _ _ => true | _ => false end.

Definition is_start_bot (e : Event) : bool :=
  match e with FetchStartBot _ _ _ _ => true | _ => false end.

Definition is_join (e : Event) : bool :=
  match e with DailyJoin _ _ _ _ => true | _ => false end.

(** The cells with [state] replaced. *)
Definition with_state (st : AppState) (s : State.t) : AppState :=
  apply_event st (SetState s).

(** Provisioning went through: either no backend is configured, or the
    body is truthy, carries no error and has a [result]. *)
Definition provisioning_passes (env : Env) (w : World) : Prop :=
  truthy (of_optional (VITE_SERVER_URL env)) = false
  \/ exists d r, create_room w = Fulfilled (Some d)
                 /\ truthy (Response.error d) = false
                 /\ Response.result d = Some r.

(** The url of the provisioning result, [undefined] when provisioning did
    not run or did not resolve. *)
Definition provisioned_url (env : Env) (w : World) : JsVal :=
  if truthy (of_optional (VITE_SERVER_URL env)) then
    match create_room w with
    | Fulfilled data => opt_result_url data
    | Rejected => undefined
    end
  else undefined.

(** [leave] runs to its end: there is no call object, or both of its
    calls resolve. *)
Definition leave_completes (w : World) : Prop :=
  daily w = false
  \/ (exists a b, leave_settles w = Fulfilled a
                  /\ destroy_settles w = Fulfilled b).

(** What holds of every configuration of a run. *)
Definition message_held (c : Config) : Prop :=
  (state (fst c) = State.error -> has_message (fst c) = true)
  /\ Forall (fun tr => message_first (has_message (fst c)) tr = true) (snd c).

(** A pending list of calls is the rest of a handler that a reachable
    render offered. *)
Definition from_offered (env : Env) (tr : list Event) : Prop :=
  exists st0 a w pre,
    Reachable env st0
    /\ offered env st0 a = true
    /\ events (handler env w st0 a) = pre ++ tr.

(** * Facts *)

(** ** JavaScript values *)

Lemma truthy_str (s : string) : truthy (str s) = true <-> s <> "".
Proof.
  destruct s; simpl; split; intro H; try discriminate; try reflexivity.
  contradiction.
Qed.

Lemma jor_truthy_l (a b : JsVal) : truthy a = true -> jor a b = a.
Proof. unfold jor; intros ->; reflexivity. Qed.

Lemma jor_falsy_l (a b : JsVal) : truthy a = false -> jor a b = b.
Proof. unfold jor; intros ->; reflexivity. Qed.

Lemma truthy_not_nullish (v : JsVal) : truthy v = true -> is_nullish v = false.
Proof. destruct v; simpl; congruence. Qed.

(** ** The derivative matcher decides the language *)

Section RegexCorrect.

Import Regex.

Lemma nullable_complete (r : regex) (w : list ascii) :
  Matches r w -> w = [] -> nullable r = true.
Proof.
  induction 1; intros E; simpl; try reflexivity; try discriminate.
  - apply app_eq_nil in E as [-> ->].
    rewrite IHMatches1, IHMatches2; reflexivity.
  - rewrite IHMatches by assumption; reflexivity.
  - rewrite IHMatches by assumption; apply orb_true_r.
  - apply app_eq_nil in E as [-> ->]. auto.
Qed.

Lemma nullable_sound (r : regex) : nullable r = true -> Matches r [].
Proof.
  induction r; simpl; intros E; try discriminate.
  - constructor.
  - apply andb_true_iff in E as [E1 E2].
    change (@nil ascii) with (@nil ascii ++ []). constructor; auto.
  - apply orb_true_iff in E as [E | E]; [apply MAltL | apply MAltR]; auto.
  - constructor.
  - change (@nil ascii) with (@nil ascii ++ []). constructor; auto.
    constructor.
  - constructor.
Qed.

Lemma nullable_iff (r : regex) : nullable r = true <-> Matches r [].
Proof.
  split; [apply nullable_sound | intros H; eapply nullable_complete; eauto].
Qed.

Lemma deriv_sound (a : ascii) (r : regex) :
  forall w, Matches (deriv a r) w -> Matches r (a :: w).
Proof.
  induction r; simpl; intros w H.
  - inversion H.
  - inversion H.
  - destruct (Ascii.eqb a c) eqn:E; inversion H; subst.
    apply Ascii.eqb_eq in E; subst. constructor.
  - destruct (Ascii.eqb a c) eqn:E; inversion H; subst.
    apply Ascii.eqb_neq in E. constructor; assumption.
  - destruct (nullable r1) eqn:N.
    + inversion H; subst.
      * match goal with
        | M : Matches (Seq _ _) _ |- _ => inversion M; subst
        end.
        change (a :: w1 ++ w2) with ((a :: w1) ++ w2). constructor; auto.
      * change (a :: w) with ([] ++ a :: w).
        constructor; [apply nullable_sound; assumption | auto].
    + inversion H; subst.
      change (a :: w1 ++ w2) with ((a :: w1) ++ w2). constructor; auto.
  - inversion H; subst; [apply MAltL | apply MAltR]; auto.
  - apply MOptSome; auto.
  - inversion H; subst.
    change (a :: w1 ++ w2) with ((a :: w1) ++ w2). constructor; auto.
  - inversion H; subst.
    change (a :: w1 ++ w2) with ((a :: w1) ++ w2). constructor; auto.
Qed.

Lemma deriv_complete (r : regex) (v : list ascii) :
  Matches r v -> forall x u, v = x :: u -> Matches (deriv x r) u.
Proof.
  induction 1; intros x u E; simpl; try discriminate.
  - injection E as -> <-. rewrite Ascii.eqb_refl. constructor.
  - injection E as -> <-.
    destruct (Ascii.eqb x c) eqn:Ea.
    + apply Ascii.eqb_eq in Ea; contradiction.
    + constructor.
  - destruct w1 as [| b w1'].
    + simpl in E; subst.
      rewrite (nullable_complete H eq_refl).
      apply MAltR; auto.
    + simpl in E; injection E as -> <-.
      assert (Matches (Seq (deriv x r1) r2) (w1' ++ w2))
        by (constructor; auto).
      destruct (nullable r1); [apply MAltL |]; assumption.
  - apply MAltL; auto.
  - apply MAltR; auto.
  - auto.
  - destruct w1 as [| b w1'].
    + simpl in E; subst. apply (IHMatches2 x u eq_refl).
    + simpl in E; injection E as -> <-. constructor; auto.
  - destruct w1 as [| b w1'].
    + simpl in E; subst. apply (IHMatches2 x u eq_refl).
    + simpl in E; injection E as -> <-. constructor; auto.
Qed.

Lemma test_chars_iff (w : list ascii) :
  forall r, test_chars r w = true <-> Matches r w.
Proof.
  induction w as [| a w IH]; intros r; simpl.
  - apply nullable_iff.
  - rewrite IH. split.
    + apply deriv_sound.
    + intros H. eapply deriv_complete; eauto.
Qed.

Lemma test_iff (r : regex) (s : string) :
  test r s = true <-> Matches r (chars s).
Proof. apply test_chars_iff. Qed.

(** *** The shapes the room pattern is built from *)

Lemma matches_lit (s : string) (w : list ascii) :
  Matches (lit s) w <-> w = chars s.
Proof.
  revert w; induction s as [| c s IH]; intros w; simpl; split; intros H.
  - inversion H; reflexivity.
  - subst; constructor.
  - inversion H; subst.
    match goal with M : Matches (Lit _) _ |- _ => inversion M; subst end.
    simpl. f_equal. apply IH; assumption.
  - subst. apply (@MSeq (Lit c) (lit s) [c] (chars s)).
    + constructor.
    + apply IH; reflexivity.
Qed.

Lemma matches_star_notchar (c : ascii) (w : list ascii) :
  Matches (Star (NotChar c)) w <-> ~ In c w.
Proof.
  split.
  - intros H. remember (Star (NotChar c)) as r eqn:Er.
    induction H; try discriminate; injection Er as ->.
    + intros [].
    + inversion H; subst. simpl. intros [E | I].
      * congruence.
      * apply IHMatches2; auto.
  - induction w as [| d w IH]; intros H.
    + constructor.
    + change (d :: w) with ([d] ++ w). constructor.
      * constructor. intros ->. apply H; left; reflexivity.
      * apply IH. intros I. apply H; right; assumption.
Qed.

Lemma matches_plus_notchar (c : ascii) (w : list ascii) :
  Matches (Plus (NotChar c)) w <-> w <> [] /\ ~ In c w.
Proof.
  split.
  - intros H. inversion H; subst.
    match goal with M : Matches (NotChar _) _ |- _ => inversion M; subst end.
    split; [discriminate |].
    simpl. intros [E | I]; [congruence |].
    revert I. apply matches_star_notchar. assumption.
  - intros [N H]. destruct w as [| d w]; [contradiction |].
    change (d :: w) with ([d] ++ w). constructor.
    + constructor. intros ->. apply H; left; reflexivity.
    + apply matches_star_notchar. intros I. apply H; right; assumption.
Qed.

Lemma matches_seq (r1 r2 : regex) (w : list ascii) :
  Matches (Seq r1 r2) w <->
  exists w1 w2, w = w1 ++ w2 /\ Matches r1 w1 /\ Matches r2 w2.
Proof.
  split.
  - intros H; inversion H; subst; eauto.
  - intros (w1 & w2 & -> & H1 & H2); constructor; assumption.
Qed.

Lemma matches_opt_lit (c : ascii) (w : list ascii) :
  Matches (Opt (Lit c)) w <-> w = [] \/ w = [c].
Proof.
  split.
  - intros H; inversion H; subst; [left; reflexivity |].
    match goal with M : Matches (Lit _) _ |- _ => inversion M; subst end.
    right; reflexivity.
  - intros [-> | ->]; [apply MOptNone | apply MOptSome; constructor].
Qed.

End RegexCorrect.

(** ** What [checkRoomUrl] accepts *)

Lemma chars_app (s1 s2 : string) :
  chars (s1 ++ s2)%string = chars s1 ++ chars s2.
Proof.
  induction s1 as [| c s1 IH]; simpl; [reflexivity |].
  unfold chars in *; simpl; rewrite IH; reflexivity.
Qed.

Lemma chars_inj (s1 s2 : string) : chars s1 = chars s2 -> s1 = s2.
Proof.
  intros E.
  rewrite <- (string_of_list_ascii_of_string s1).
  rewrite <- (string_of_list_ascii_of_string s2).
  unfold chars in E; rewrite E; reflexivity.
Qed.

Lemma chars_of_list (w : list ascii) : chars (string_of_list_ascii w) = w.
Proof. apply list_ascii_of_string_of_list_ascii. Qed.

Lemma chars_nil (s : string) : chars s = [] <-> s = "".
Proof.
  destruct s; simpl; split; intros H; try reflexivity; discriminate.
Qed.

(** The pattern, read as a set of strings. *)
Lemma room_url_pattern_iff (s : string) :
  Regex.test room_url_pattern s = true <->
  exists scheme label room,
    s = (scheme ++ "://" ++ label ++ ".daily.co/" ++ room)%string
    /\ (scheme = "http" \/ scheme = "https")
    /\ (label <> "" /\ ~ In "."%char (chars label))
    /\ is_segment room.
Proof.
  rewrite test_iff. unfold room_url_pattern. split.
  - intros H.
    apply matches_seq in H as (w1 & r1 & E1 & H1 & H).
    apply matches_seq in H as (w2 & r2 & E2 & H2 & H).
    apply matches_seq in H as (w3 & r3 & E3 & H3 & H).
    apply matches_seq in H as (w4 & r4 & E4 & H4 & H).
    apply matches_seq in H as (w5 & w6 & E5 & H5 & H6).
    apply matches_lit in H1, H3, H5.
    apply matches_opt_lit in H2.
    apply matches_plus_notchar in H4 as [N4 I4], H6 as [N6 I6].
    subst r4 r3 r2 r1 w1 w3 w5.
    exists (string_of_list_ascii (chars "http" ++ w2)),
           (string_of_list_ascii w4), (string_of_list_ascii w6).
    repeat split.
    + apply chars_inj. rewrite E1.
      rewrite !chars_app, !chars_of_list, <- !app_assoc. reflexivity.
    + destruct H2 as [-> | ->]; [left | right]; reflexivity.
    + intros E. apply N4. rewrite <- (chars_of_list w4), E. reflexivity.
    + rewrite chars_of_list. assumption.
    + intros E. apply N6. rewrite <- (chars_of_list w6), E. reflexivity.
    + rewrite chars_of_list. assumption.
  - intros (scheme & label & room & -> & Hs & [Nl Il] & [Nr Ir]).
    assert (Hscheme : exists o, chars scheme = chars "http" ++ o
                                /\ (o = [] \/ o = ["s"%char])).
    { destruct Hs as [-> | ->];
        [exists [] | exists ["s"%char]]; split; auto. }
    destruct Hscheme as (o & Eo & Ho).
    rewrite !chars_app, Eo, <- !app_assoc.
    constructor; [apply matches_lit; reflexivity |].
    constructor; [apply matches_opt_lit; assumption |].
    constructor; [apply matches_lit; reflexivity |].
    constructor.
    { apply matches_plus_notchar. split; [| assumption].
      intros E. apply Nl. apply chars_nil. assumption. }
    constructor; [apply matches_lit; reflexivity |].
    apply matches_plus_notchar. split; [| assumption].
    intros E. apply Nr. apply chars_nil. assumption.
Qed.

Lemma checkRoomUrl_iff (s : string) :
  checkRoomUrl (Some s) = true <->
  exists scheme label room,
    s = (scheme ++ "://" ++ label ++ ".daily.co/" ++ room)%string
    /\ (scheme = "http" \/ scheme = "https")
    /\ (label <> "" /\ ~ In "."%char (chars label))
    /\ is_segment room.
Proof.
  unfold checkRoomUrl. rewrite andb_true_iff, room_url_pattern_iff. split.
  - intros [_ H]; exact H.
  - intros H. split; [| exact H].
    destruct H as (scheme & label & room & -> & [-> | ->] & _); reflexivity.
Qed.

(** Everything the specification calls a room URL is accepted. *)
Lemma single_level_room_url_accepted (s : string) :
  single_level_room_url s -> checkRoomUrl (Some s) = true.
Proof.
  intros (scheme & label & room & E & Hs & (Nl & Il & _) & Hr).
  apply checkRoomUrl_iff. exists scheme, label, room. auto.
Qed.

(** * The claims *)

(** C4 (the code departs from the claim).  [checkRoomUrl] is claimed to
    accept exactly the URLs made of the protocol, one subdomain label
    before the provider domain and one path segment.  The class [[^.]+]
    that stands for the label also lets the path separator through: the
    candidate below, whose host is [a] and whose path has two segments, is
    accepted although it is not such a URL. *)
Theorem C4_slash_inside_label_accepted :
  checkRoomUrl (Some "https://a/b.daily.co/room1") = true
  /\ ~ single_level_room_url "https://a/b.daily.co/room1".
Proof.
  split; [reflexivity |].
  intros (scheme & label & room & E & Hs & (Nl & _ & Sl) & _).
  destruct Hs as [-> | ->]; simpl in E; [discriminate |].
  injection E as E.
  destruct label as [| c1 label]; [apply Nl; reflexivity |].
  simpl in E. injection E as <- E.
  destruct label as [| c2 label]; simpl in E; [discriminate |].
  injection E as <- E.
  apply Sl. simpl. right; left; reflexivity.
Qed.

(** The rejections that the claim lists do hold, and so does the example
    that it accepts. *)
Lemma checkRoomUrl_examples :
  checkRoomUrl (Some "https://foo.daily.co/room1") = true
  /\ checkRoomUrl (Some "http://foo.daily.co/room1") = true
  /\ checkRoomUrl (Some "https://foo.daily.co/room1/") = false
  /\ checkRoomUrl (Some "https://daily.co/room1") = false
  /\ checkRoomUrl (Some "https://foo.daily.co/room1/extra") = false
  /\ checkRoomUrl (Some "https://a.b.daily.co/room1") = false
  /\ checkRoomUrl (Some "") = false
  /\ checkRoomUrl None = false.
Proof. repeat split; reflexivity. Qed.

(** C9.  At startup [roomError] is [true] exactly when a query-string room
    URL is present and passes [checkRoomUrl]. *)
Theorem C9_initial_roomError (env : Env) :
  roomError (init env) = true <->
  exists q, roomQs env = Some q /\ checkRoomUrl (Some q) = true.
Proof.
  unfold init; simpl. destruct (roomQs env) as [q |]; simpl.
  - split.
    + intros H. exists q. split; [reflexivity |].
      destruct q; simpl in *; [discriminate |].
      destruct (Regex.test _ _); [reflexivity | discriminate].
    + intros (q' & E & H). injection E as <-.
      destruct q; simpl in *; [discriminate |].
      rewrite H. reflexivity.
  - split; [discriminate |]. intros (q & E & _). discriminate.
Qed.

(** ** Running handlers *)

Lemma apply_events_app (st : AppState) (tr1 tr2 : list Event) :
  apply_events st (tr1 ++ tr2) = apply_events (apply_events st tr1) tr2.
Proof. apply fold_left_app. Qed.

(** A handler that runs from a reachable render without interleaving
    passes through reachable states only. *)
Lemma reachable_run (env : Env) (w : World) (st : AppState) (a : Action) :
  Reachable env st ->
  offered env st a = true ->
  forall pre post,
    events (handler env w st a) = pre ++ post ->
    Reachable env (apply_events st pre).
Proof.
  intros R O pre. induction pre as [| e pre IH] using rev_ind; intros post E.
  - exact R.
  - rewrite apply_events_app. simpl.
    rewrite <- app_assoc in E.
    eapply reach_event with (st0 := st) (a := a) (w := w).
    + eapply IH; eassumption.
    + exact R.
    + exact O.
    + rewrite E. apply in_or_app; right. apply in_or_app; left.
      left; reflexivity.
Qed.

Lemma reachable_after (env : Env) (w : World) (st : AppState) (a : Action) :
  Reachable env st -> offered env st a = true -> Reachable env (after env w st a).
Proof.
  intros R O. unfold after.
  eapply reachable_run with (post := []); try eassumption.
  symmetry; apply app_nil_r.
Qed.

Ltac in_cases :=
  repeat match goal with
         | H : _ \/ _ |- _ => destruct H as [H | H]
         | H : False |- _ => destruct H
         | H : SetState _ = SetState _ |- _ => injection H as <-
         | H : DailyJoin _ _ _ _ = DailyJoin _ _ _ _ |- _ => injection H as <- <-
         | H : @eq Event _ _ |- _ => discriminate H
         end.

Lemma handleRoomUrl_sets_live (env : Env) (st : AppState) (s : State.t) :
  In (SetState s) (events (handleRoomUrl env st)) -> In s live_states.
Proof.
  unfold handleRoomUrl, live_states.
  destruct (_ || _); simpl; intros H; in_cases; auto 10.
Qed.

Lemma start_sets_live (env : Env) (w : World) (st : AppState) (s : State.t) :
  In (SetState s) (events (start env w st)) -> In s live_states.
Proof.
  unfold start, request_agent, report_capacity, live_states.
  destruct (_ || _); simpl; [tauto |].
  destruct (truthy (of_optional (VITE_SERVER_URL env))); simpl.
  - destruct (create_room w) as [[d |] |]; simpl.
    + destruct (truthy (Response.error d)); simpl.
      * intros H; in_cases; auto 10.
      * destruct (Response.result d); simpl.
        -- destruct (join w); simpl; intros H; in_cases; auto 10.
        -- intros H; in_cases; auto 10.
    + intros H; in_cases; auto 10.
    + intros H; in_cases; auto 10.
  - destruct (join w); simpl; intros H; in_cases; auto 10.
Qed.

Lemma leave_sets_live (env : Env) (w : World) (s : State.t) :
  In (SetState s) (events (leave env w)) -> In s live_states.
Proof.
  unfold leave, live_states.
  destruct (daily w); simpl.
  - destruct (leave_settles w); simpl; [| intros H; in_cases].
    destruct (destroy_settles w); simpl; [| intros H; in_cases].
    destruct (truthy (showConfigOptions env)); intros H; in_cases; auto 10.
  - destruct (truthy (showConfigOptions env)); intros H; in_cases; auto 10.
Qed.

Lemma handler_sets_live (env : Env) (w : World) (st : AppState) (a : Action)
  (s : State.t) :
  In (SetState s) (events (handler env w st a)) -> In s live_states.
Proof.
  destruct a; simpl.
  - apply handleRoomUrl_sets_live.
  - apply start_sets_live.
  - apply leave_sets_live.
  - intros H; in_cases.
  - intros H; in_cases.
Qed.

Lemma init_live (env : Env) : In (state (init env)) live_states.
Proof.
  unfold init, live_states; simpl.
  destruct (truthy (showConfigOptions env)); simpl; auto.
Qed.

(** C8.  [started] and [finished] are declared but never produced: every
    reachable state of the component is one of [idle], [configuring],
    [requesting_agent], [connecting], [connected] and [error]. *)
Theorem C8_started_finished_unreachable (env : Env) (st : AppState) :
  Reachable env st ->
  In (state st) live_states
  /\ state st <> State.started
  /\ state st <> State.finished.
Proof.
  intros R.
  assert (L : In (state st) live_states).
  { induction R as [| st st0 a w e R IH R0 _ O I].
    - apply init_live.
    - destruct e; simpl; try exact IH.
      eapply handler_sets_live; eassumption. }
  split; [exact L |].
  unfold live_states in L; simpl in L.
  split; intros E; rewrite E in L; in_cases; discriminate.
Qed.

Lemma C8_started_finished_unreachable_witness :
  In (state (after (env_server None) (world true Rejected Rejected)
               (init (env_server None)) ClickNext)) live_states
  /\ state (after (env_server None) (world true Rejected Rejected)
              (init (env_server None)) ClickNext) <> State.started
  /\ state (after (env_server None) (world true Rejected Rejected)
              (init (env_server None)) ClickNext) <> State.finished.
Proof.
  apply (@C8_started_finished_unreachable (env_server None)).
  apply reachable_after.
  - apply reach_init.
  - reflexivity.
Defined.

(** C1 (the code departs from the claim).  [daily.join] is claimed never
    to receive a null url.  With no provisioning backend, manual entry not
    forced and no room URL, the component starts in [configuring] with the
    Start button live; [start] passes its guard because [autoRoomCreation]
    is [true], skips provisioning, and calls [daily.join] with [null]. *)
Theorem C1_join_called_with_null_url :
  autoRoomCreation env_bare = true
  /\ serverUrl env_bare = undefined
  /\ roomUrl (init env_bare) = None
  /\ offered env_bare (init env_bare) ClickStart = true
  /\ events (start env_bare (world true Rejected (Fulfilled tt)) (init env_bare))
     = [SetState State.connecting;
        DailyJoin null (str "") false false;
        SetState State.connected].
Proof. repeat split; reflexivity. Qed.

(** Short of that configuration the url is there: when [roomUrl] holds a
    non-empty string, no call of [daily.join] receives [null] or
    [undefined]. *)
Lemma join_url_not_null_with_room
  (env : Env) (w : World) (st : AppState) (u t : JsVal) :
  truthy (of_nullable (roomUrl st)) = true ->
  In (u, t) (joins (events (start env w st))) ->
  is_nullish u = false.
Proof.
  intros T.
  assert (J : forall v, is_nullish (jor v (of_nullable (roomUrl st))) = false).
  { intros v. unfold jor. destruct (truthy v) eqn:V.
    - apply truthy_not_nullish; assumption.
    - apply truthy_not_nullish; assumption. }
  unfold start, request_agent, report_capacity.
  destruct (_ || _); simpl; [tauto |].
  destruct (truthy (of_optional (VITE_SERVER_URL env))); simpl.
  - destruct (create_room w) as [[d |] |]; simpl; try tauto.
    destruct (truthy (Response.error d)); simpl; [tauto |].
    destruct (Response.result d) as [r |] eqn:R; simpl; [| tauto].
    destruct (join w); simpl; intros [H | []];
      injection H as <- _; apply J.
  - destruct (join w); simpl; intros [H | []];
      injection H as <- _; apply J.
Qed.

(** C2 (the code departs from the claim).  When [daily.join] rejects the
    message is claimed to name the URL that was passed to it.  The join
    receives [data?.result?.url || roomUrl] but the message is built from
    [data?.room_url || roomUrl]: on the auto-creation path the join is
    attempted on the provisioned room and the message reads ['null']. *)
Theorem C2_error_message_omits_joined_url :
  let env := env_server None in
  let w := world true
             (Fulfilled (Some (response_ok "https://foo.daily.co/room1" "tok")))
             Rejected in
  joins (events (start env w (init env)))
    = [(str "https://foo.daily.co/room1", str "tok")]
  /\ state (after env w (init env) ClickStart) = State.error
  /\ error (after env w (init env) ClickStart)
     = Some "Unable to join room: 'null'"
  /\ includes "Unable to join room: 'null'" "https://foo.daily.co/room1"
     = false.
Proof. repeat split; reflexivity. Qed.

(** The transition itself does hold: whenever the join rejects, the last
    two calls of [start] are [setError] and [setState("error")], and on the
    direct path the message names the room that was joined. *)
Lemma join_rejected_direct (env : Env) (w : World) (st : AppState) (u : string) :
  daily w = true ->
  roomUrl st = Some u ->
  u <> "" ->
  truthy (of_optional (VITE_SERVER_URL env)) = false ->
  join w = Rejected ->
  events (start env w st)
  = [SetState State.connecting;
     DailyJoin (of_nullable (Some u)) (str "") false (startAudioOff st);
     SetError ("Unable to join room: '" ++ u ++ "'");
     SetState State.error].
Proof.
  intros D U N S J. unfold start. rewrite D, U, S, J. simpl.
  destruct u; [contradiction | reflexivity].
Qed.

(** C3, as stated, fails.  With [autoRoomCreation] true and no server URL
    the Next button is disabled and [handleRoomUrl] sets the error flag
    and leaves the state at [idle]; with a server URL and a query-string
    room URL that does not validate, the Next button is disabled too. *)
Lemma C3_counterexample :
  (autoRoomCreation env_landing = true
   /\ state (init env_landing) = State.idle
   /\ next_disabled env_landing (init env_landing) = true
   /\ state (after env_landing (world true Rejected Rejected)
               (init env_landing) ClickNext) = State.idle
   /\ roomError (after env_landing (world true Rejected Rejected)
                   (init env_landing) ClickNext) = true)
  /\ (autoRoomCreation (env_server (Some "nowhere")) = true
      /\ next_disabled (env_server (Some "nowhere"))
           (init (env_server (Some "nowhere"))) = true).
Proof. repeat split; reflexivity. Qed.

(** C3 (amended).  When [autoRoomCreation] is true and a server URL is
    configured, [handleRoomUrl] clears the error flag and moves to
    [configuring] whatever [roomUrl] holds; the Next button is then
    disabled exactly when a query-string room URL is present while the
    error flag is clear. *)
Theorem C3_proceed_with_auto_room_creation (env : Env) (w : World)
  (st : AppState) :
  autoRoomCreation env = true ->
  truthy (serverUrl env) = true ->
  events (handleRoomUrl env st)
  = [SetRoomError false; SetState State.configuring]
  /\ state (after env w st ClickNext) = State.configuring
  /\ roomError (after env w st ClickNext) = false
  /\ next_disabled env st
     = truthy (of_nullable (roomQs env)) && negb (roomError st).
Proof.
  intros A S.
  assert (E : events (handleRoomUrl env st)
              = [SetRoomError false; SetState State.configuring]).
  { unfold handleRoomUrl. rewrite A, S. reflexivity. }
  repeat split.
  - exact E.
  - unfold after; simpl. rewrite E. reflexivity.
  - unfold after; simpl. rewrite E. reflexivity.
  - unfold next_disabled. rewrite A, S. simpl. apply orb_false_r.
Qed.

Lemma C3_proceed_with_auto_room_creation_witness :
  events (handleRoomUrl (env_server None) (init (env_server None)))
  = [SetRoomError false; SetState State.configuring]
  /\ state (after (env_server None) (world true Rejected Rejected)
              (init (env_server None)) ClickNext)
     = State.configuring
  /\ roomError (after (env_server None) (world true Rejected Rejected)
                  (init (env_server None)) ClickNext) = false
  /\ next_disabled (env_server None) (init (env_server None))
     = truthy (of_nullable (roomQs (env_server None)))
       && negb (roomError (init (env_server None))).
Proof.
  apply (@C3_proceed_with_auto_room_creation (env_server None)
           (world true Rejected Rejected) (init (env_server None)));
    reflexivity.
Defined.

(** ** Provisioning *)

Lemma start_guard_passes (env : Env) (w : World) (st : AppState) :
  start_proceeds env w st ->
  negb (daily w)
  || (negb (truthy (of_nullable (roomUrl st))) && negb (autoRoomCreation env))
  = false.
Proof.
  intros [D [T | A]]; rewrite D; simpl.
  - rewrite T; reflexivity.
  - rewrite A; apply andb_false_r.
Qed.

(** C5.  When provisioning fails, by a thrown error or by a body carrying
    an error, [start] goes [requesting_agent] then [configuring], sets the
    one static, non-empty capacity message, and neither sets [connecting]
    nor calls [daily.join]. *)
Theorem C5_provisioning_failure_returns_to_configuring
  (env : Env) (w : World) (st : AppState) :
  start_proceeds env w st ->
  truthy (of_optional (VITE_SERVER_URL env)) = true ->
  provisioning_failed (create_room w) ->
  events (start env w st)
  = [SetState State.requesting_agent;
     FetchStartAgent (to_string (serverUrl env) ++ "create_room")
       (serverAuth env);
     SetCapacityError capacity_message;
     SetState State.configuring]
  /\ capacity_message <> ""
  /\ states_set (events (start env w st))
     = [State.requesting_agent; State.configuring]
  /\ ~ In (SetState State.connecting) (events (start env w st))
  /\ joins (events (start env w st)) = []
  /\ state (after env w st ClickStart) = State.configuring
  /\ capacityError (after env w st ClickStart) = capacity_message.
Proof.
  intros G S F.
  assert (E : events (start env w st)
              = [SetState State.requesting_agent;
                 FetchStartAgent (to_string (serverUrl env) ++ "create_room")
                   (serverAuth env);
                 SetCapacityError capacity_message;
                 SetState State.configuring]).
  { unfold start. rewrite (start_guard_passes G), S.
    unfold request_agent, report_capacity.
    destruct F as [-> | (d & -> & Err)]; simpl.
    - reflexivity.
    - rewrite Err. reflexivity. }
  unfold after; simpl handler. rewrite E.
  repeat split; try reflexivity.
  - discriminate.
  - simpl. intros H; in_cases.
Qed.

Lemma C5_provisioning_failure_returns_to_configuring_witness :
  let env := env_server None in
  let w := world true (Fulfilled (Some response_capacity)) (Fulfilled tt) in
  let st := init env in
  events (start env w st)
  = [SetState State.requesting_agent;
     FetchStartAgent (to_string (serverUrl env) ++ "create_room")
       (serverAuth env);
     SetCapacityError capacity_message;
     SetState State.configuring]
  /\ capacity_message <> ""
  /\ states_set (events (start env w st))
     = [State.requesting_agent; State.configuring]
  /\ ~ In (SetState State.connecting) (events (start env w st))
  /\ joins (events (start env w st)) = []
  /\ state (after env w st ClickStart) = State.configuring
  /\ capacityError (after env w st ClickStart) = capacity_message.
Proof.
  apply (@C5_provisioning_failure_returns_to_configuring
           (env_server None)
           (world true (Fulfilled (Some response_capacity)) (Fulfilled tt))
           (init (env_server None))).
  - split; [reflexivity | right; reflexivity].
  - reflexivity.
  - right. exists response_capacity. split; reflexivity.
Defined.

(** The two other ways of not succeeding end the same way: a falsy body,
    and a body without [error] whose [result] is missing, where reading
    [data.result.url] throws inside the [try]. *)
Lemma provisioning_malformed_returns_to_configuring
  (env : Env) (w : World) (st : AppState) :
  start_proceeds env w st ->
  truthy (of_optional (VITE_SERVER_URL env)) = true ->
  (create_room w = Fulfilled None
   \/ exists d, create_room w = Fulfilled (Some d)
                /\ Response.result d = None) ->
  events (start env w st)
  = [SetState State.requesting_agent;
     FetchStartAgent (to_string (serverUrl env) ++ "create_room")
       (serverAuth env);
     SetCapacityError capacity_message;
     SetState State.configuring].
Proof.
  intros G S F. unfold start. rewrite (start_guard_passes G), S.
  unfold request_agent, report_capacity.
  destruct F as [-> | (d & -> & R)]; simpl.
  - reflexivity.
  - rewrite R. destruct (truthy (Response.error d)); reflexivity.
Qed.

(** C6.  On a success body with non-empty [result.url] and [result.token],
    [start] goes [requesting_agent] then [connecting] and calls
    [daily.join] once, with that url and that token. *)
Theorem C6_join_uses_provisioned_url_and_token
  (env : Env) (w : World) (st : AppState) (d : Response.t) (u t : string) :
  start_proceeds env w st ->
  truthy (of_optional (VITE_SERVER_URL env)) = true ->
  create_room w = Fulfilled (Some d) ->
  truthy (Response.error d) = false ->
  Response.result d
  = Some {| Response.url := str u; Response.token := str t |} ->
  u <> "" ->
  t <> "" ->
  events (start env w st)
  = [SetState State.requesting_agent;
     FetchStartAgent (to_string (serverUrl env) ++ "create_room")
       (serverAuth env);
     FetchStartBot (to_string (serverUrl env) ++ "start_bot")
       ("Bearer " ++ to_string (serverAuth env)) (str u) (str t);
     SetState State.connecting;
     DailyJoin (str u) (str t) false (startAudioOff st)]
    ++ after_join w
         ("Unable to join room: '"
          ++ to_string (jor (Response.room_url d) (of_nullable (roomUrl st)))
          ++ "'")
  /\ joins (events (start env w st)) = [(str u, str t)].
Proof.
  intros G S C Err R Nu Nt.
  assert (E : events (start env w st)
    = [SetState State.requesting_agent;
       FetchStartAgent (to_string (serverUrl env) ++ "create_room")
         (serverAuth env);
       FetchStartBot (to_string (serverUrl env) ++ "start_bot")
         ("Bearer " ++ to_string (serverAuth env)) (str u) (str t);
       SetState State.connecting;
       DailyJoin (str u) (str t) false (startAudioOff st)]
      ++ after_join w
           ("Unable to join room: '"
            ++ to_string (jor (Response.room_url d) (of_nullable (roomUrl st)))
            ++ "'")).
  { unfold start. rewrite (start_guard_passes G), S.
    unfold request_agent, after_join. rewrite C. simpl. rewrite Err. simpl.
    rewrite R. simpl.
    unfold opt_result_url, opt_result_token, opt_room_url. simpl.
    rewrite R. simpl.
    apply truthy_str in Nu, Nt.
    rewrite !jor_truthy_l by assumption.
    destruct (join w); reflexivity. }
  split; [exact E |].
  rewrite E. unfold after_join. destruct (join w); reflexivity.
Qed.

Lemma C6_join_uses_provisioned_url_and_token_witness :
  let env := env_server None in
  let d := response_ok "https://foo.daily.co/room1" "tok" in
  let w := world true (Fulfilled (Some d)) (Fulfilled tt) in
  let st := init env in
  events (start env w st)
  = [SetState State.requesting_agent;
     FetchStartAgent (to_string (serverUrl env) ++ "create_room")
       (serverAuth env);
     FetchStartBot (to_string (serverUrl env) ++ "start_bot")
       ("Bearer " ++ to_string (serverAuth env))
       (str "https://foo.daily.co/room1") (str "tok");
     SetState State.connecting;
     DailyJoin (str "https://foo.daily.co/room1") (str "tok") false
       (startAudioOff st)]
    ++ after_join w
         ("Unable to join room: '"
          ++ to_string (jor (Response.room_url d) (of_nullable (roomUrl st)))
          ++ "'")
  /\ joins (events (start env w st))
     = [(str "https://foo.daily.co/room1", str "tok")].
Proof.
  apply (@C6_join_uses_provisioned_url_and_token
           (env_server None)
           (world true
              (Fulfilled (Some (response_ok "https://foo.daily.co/room1" "tok")))
              (Fulfilled tt))
           (init (env_server None))
           (response_ok "https://foo.daily.co/room1" "tok")
           "https://foo.daily.co/room1" "tok").
  - split; [reflexivity | right; reflexivity].
  - reflexivity.
  - reflexivity.
  - reflexivity.
  - reflexivity.
  - discriminate.
  - discriminate.
Defined.

(** ** Leaving *)

(** C7, as stated, fails.  When [useDaily] gave no call object, [leave]
    from [connected] calls neither [leave] nor [destroy] on it: the
    optional calls are skipped and only the state is set. *)
Lemma C7_counterexample :
  let st := apply_event (init env_bare) (SetState State.connected) in
  let w := world false Rejected (Fulfilled tt) in
  state st = State.connected
  /\ events (handler env_bare w st ClickLeave) = [SetState State.configuring]
  /\ occurrences is_leave (events (handler env_bare w st ClickLeave)) = 0
  /\ occurrences is_destroy (events (handler env_bare w st ClickLeave)) = 0.
Proof. repeat split; reflexivity. Qed.

(** C7 (amended).  With a call object, [leave] calls [daily.leave()]
    exactly once and waits for it; it calls [daily.destroy()] exactly
    once, after that, if the first call resolved and not at all if it
    rejected; and it sets the state, to [idle] when [showConfigOptions] is
    set and to [configuring] otherwise, only once both calls have
    resolved: if either rejects no cell changes.  Without a call object
    neither is called and the state is set all the same. *)
Theorem C7_leave_releases_then_resets
  (env : Env) (st : AppState)
  (c : Settled (option Response.t)) (j l d : Settled unit) :
  let present := {| daily := true; create_room := c; join := j;
                    leave_settles := l; destroy_settles := d |} in
  let absent := {| daily := false; create_room := c; join := j;
                   leave_settles := l; destroy_settles := d |} in
  (events (leave env present)
   = DailyLeave
     :: match l with
        | Rejected => []
        | Fulfilled _ =>
            DailyDestroy
            :: match d with
               | Rejected => []
               | Fulfilled _ => [SetState (start_state env)]
               end
        end
   /\ occurrences is_leave (events (leave env present)) = 1
   /\ occurrences is_destroy (events (leave env present))
      = match l with Fulfilled _ => 1 | Rejected => 0 end
   /\ after env present st ClickLeave
      = match l, d with
        | Fulfilled _, Fulfilled _ => with_state st (start_state env)
        | _, _ => st
        end)
  /\ (events (leave env absent) = [SetState (start_state env)]
      /\ after env absent st ClickLeave = with_state st (start_state env))
  /\ start_state env
     = (if truthy (showConfigOptions env) then State.idle
        else State.configuring)
  /\ state (with_state st (start_state env)) = start_state env.
Proof.
  unfold after, start_state; simpl handler; unfold leave; simpl.
  destruct l as [[] |], d as [[] |]; simpl; repeat split; reflexivity.
Qed.

(** A rejection of either call leaves the state where it was. *)
Lemma leave_rejected_keeps_state (env : Env) (w : World) (st : AppState) :
  daily w = true ->
  leave_settles w = Rejected \/ destroy_settles w = Rejected ->
  state (after env w st ClickLeave) = state st.
Proof.
  intros D R. unfold after; simpl handler; unfold leave. rewrite D.
  destruct (leave_settles w) as [[] |]; simpl; [| reflexivity].
  destruct (destroy_settles w) as [[] |]; simpl; [| reflexivity].
  destruct R; discriminate.
Qed.

(** ** The token handed to the join *)

(** C10.  Every call of [daily.join] receives a string as its token: the
    provisioning result's token when that is a non-empty string, and the
    empty string otherwise. *)
Theorem C10_join_token_is_a_string
  (env : Env) (w : World) (st : AppState) (u t : JsVal) :
  In (u, t) (joins (events (start env w st))) ->
  t = str (match provisioned_token env w with
           | Some s => s
           | None => ""
           end).
Proof.
  unfold start, provisioned_token, request_agent, report_capacity.
  destruct (_ || _); simpl; [tauto |].
  destruct (truthy (of_optional (VITE_SERVER_URL env))); simpl.
  - destruct (create_room w) as [[d |] |]; simpl; try tauto.
    destruct (truthy (Response.error d)); simpl; [tauto |].
    unfold opt_result_token, opt_result_url; simpl.
    destruct (Response.result d) as [r |] eqn:R; simpl; [| tauto].
    rewrite R.
    destruct (Response.token r) as [| | [| c s]]; simpl;
      destruct (join w); simpl; intros [H | []];
      injection H as _ <-; reflexivity.
  - destruct (join w); simpl; intros [H | []];
      injection H as _ <-; reflexivity.
Qed.

Lemma C10_join_token_is_a_string_witness :
  str "tok"
  = str (match provisioned_token (env_server None)
                 (world true
                    (Fulfilled
                       (Some (response_ok "https://foo.daily.co/room1" "tok")))
                    (Fulfilled tt))
         with
         | Some s => s
         | None => ""
         end).
Proof.
  apply (@C10_join_token_is_a_string
           (env_server None)
           (world true
              (Fulfilled (Some (response_ok "https://foo.daily.co/room1" "tok")))
              (Fulfilled tt))
           (init (env_server None))
           (str "https://foo.daily.co/room1") (str "tok")).
  left; reflexivity.
Defined.

(** * Further properties of the code *)

(** ** The server URL *)

Lemma endsWith_slash_one (c : ascii) :
  endsWith (String c "") "/" = Ascii.eqb c "/".
Proof.
  unfold endsWith; simpl.
  destruct (Ascii.eqb c "/"); reflexivity.
Qed.

Lemma endsWith_slash_more (c c' : ascii) (s : string) :
  endsWith (String c (String c' s)) "/" = endsWith (String c' s) "/".
Proof.
  unfold endsWith; simpl. rewrite Nat.sub_0_r. reflexivity.
Qed.

Lemma endsWith_slash_iff (s : string) :
  endsWith s "/" = true <-> exists p, s = (p ++ "/")%string.
Proof.
  induction s as [| c s IH].
  - split; [discriminate |].
    intros ([| c p] & E); simpl in E; discriminate.
  - destruct s as [| c' s].
    + rewrite endsWith_slash_one. split.
      * intros E. apply Ascii.eqb_eq in E; subst. exists ""; reflexivity.
      * intros ([| d p] & E); simpl in E.
        -- injection E as ->. reflexivity.
        -- injection E as _ E. destruct p; discriminate.
    + rewrite endsWith_slash_more, IH. split.
      * intros (p & E). exists (String c p). simpl. rewrite E. reflexivity.
      * intros ([| d p] & E); simpl in E; [discriminate |].
        injection E as _ E. exists p; assumption.
Qed.

(** X1.  A configured server URL always ends in a slash once the module
    is loaded: it is kept as it is when it already does and gets one
    appended otherwise, so normalising twice changes nothing.  An unset or
    empty variable is left alone and stays falsy. *)
Theorem serverUrl_ends_with_slash (env : Env) (v : string) :
  VITE_SERVER_URL env = Some v ->
  v <> "" ->
  exists s,
    serverUrl env = str s
    /\ endsWith s "/" = true
    /\ (endsWith v "/" = true -> s = v)
    /\ (endsWith v "/" = false -> s = (v ++ "/")%string)
    /\ truthy (serverUrl env) = true.
Proof.
  intros E N. unfold serverUrl. rewrite E.
  apply truthy_str in N. rewrite N. simpl.
  destruct (endsWith v "/") eqn:W; simpl.
  - exists v. repeat split; auto; discriminate.
  - exists (v ++ "/")%string. repeat split; auto; try discriminate.
    + apply endsWith_slash_iff. exists v; reflexivity.
    + destruct v; simpl; [discriminate | reflexivity].
Qed.

Lemma serverUrl_ends_with_slash_witness :
  exists s,
    serverUrl (env_server None) = str s
    /\ endsWith s "/" = true
    /\ (endsWith "https://api.example.com" "/" = true
        -> s = "https://api.example.com")
    /\ (endsWith "https://api.example.com" "/" = false
        -> s = "https://api.example.com/")
    /\ truthy (serverUrl (env_server None)) = true.
Proof.
  apply (@serverUrl_ends_with_slash (env_server None)
           "https://api.example.com").
  - reflexivity.
  - discriminate.
Defined.

(** X2.  The test on [serverUrl] in [handleRoomUrl] and in the Next button
    and the test on [VITE_SERVER_URL] in [start] always agree. *)
Theorem serverUrl_truthy_iff_configured (env : Env) :
  truthy (serverUrl env) = truthy (of_optional (VITE_SERVER_URL env)).
Proof.
  unfold serverUrl. destruct (VITE_SERVER_URL env) as [v |]; simpl.
  - destruct v as [| c v]; simpl; [reflexivity |].
    destruct (endsWith (String c v) "/"); reflexivity.
  - reflexivity.
Qed.

(** ** The validator *)

(** X3.  [checkRoomUrl] accepts exactly the strings made of [http] or
    [https], [://], a non-empty run of characters other than the dot,
    [.daily.co/], and a non-empty run of characters other than the
    slash. *)
Theorem checkRoomUrl_accepts_exactly (s : string) :
  checkRoomUrl (Some s) = true <->
  exists scheme label room,
    s = (scheme ++ "://" ++ label ++ ".daily.co/" ++ room)%string
    /\ (scheme = "http" \/ scheme = "https")
    /\ (label <> "" /\ ~ In "."%char (chars label))
    /\ (room <> "" /\ ~ In "/"%char (chars room)).
Proof.
  unfold checkRoomUrl. rewrite andb_true_iff, room_url_pattern_iff.
  unfold is_segment. split.
  - intros [_ H]; exact H.
  - intros H. split; [| exact H].
    destruct H as (scheme & label & room & -> & [-> | ->] & _); reflexivity.
Qed.

Lemma tail_in_nonempty_suffix (A : Type) (x : A) (w1 w2 r : list A) :
  w1 ++ [x] = w2 ++ r -> r <> [] -> In x r.
Proof.
  intros E N.
  destruct (exists_last N) as (r' & y & ->).
  rewrite app_assoc in E. apply app_inj_tail in E as [_ <-].
  apply in_or_app; right; left; reflexivity.
Qed.

(** X4.  No candidate that ends in a slash is accepted, whatever comes
    before the slash. *)
Theorem checkRoomUrl_rejects_trailing_slash (s : string) :
  endsWith s "/" = true -> checkRoomUrl (Some s) = false.
Proof.
  intros W. destruct (checkRoomUrl (Some s)) eqn:C; [| reflexivity].
  exfalso.
  apply checkRoomUrl_iff in C
    as (scheme & label & room & E & _ & _ & Nr & Ir).
  apply endsWith_slash_iff in W as (p & Ep).
  apply Ir.
  apply (f_equal chars) in E. rewrite Ep in E.
  rewrite !chars_app in E. rewrite !app_assoc in E.
  eapply tail_in_nonempty_suffix; [exact E |].
  intros Z. apply Nr. apply chars_nil; assumption.
Qed.

Lemma checkRoomUrl_rejects_trailing_slash_witness :
  checkRoomUrl (Some "https://foo.daily.co/room1/") = false.
Proof.
  apply (@checkRoomUrl_rejects_trailing_slash "https://foo.daily.co/room1/").
  reflexivity.
Defined.

(** X5.  The provider domain with no subdomain in front of it is
    rejected whatever the path is. *)
Theorem checkRoomUrl_rejects_bare_domain (room : string) :
  checkRoomUrl (Some ("https://daily.co/" ++ room)%string) = false
  /\ checkRoomUrl (Some ("http://daily.co/" ++ room)%string) = false.
Proof.
  assert (B : forall label room' : string,
             ("daily.co/" ++ room)%string
             = (label ++ ".daily.co/" ++ room')%string ->
             label <> "" -> ~ In "."%char (chars label) -> False).
  { intros label room' E Nl Il.
    destruct label as [| c1 label]; [apply Nl; reflexivity |].
    simpl in E. injection E as <- E.
    destruct label as [| c2 label]; simpl in E; [discriminate |].
    injection E as <- E.
    destruct label as [| c3 label]; simpl in E; [discriminate |].
    injection E as <- E.
    destruct label as [| c4 label]; simpl in E; [discriminate |].
    injection E as <- E.
    destruct label as [| c5 label]; simpl in E; [discriminate |].
    injection E as <- E.
    destruct label as [| c6 label]; simpl in E; [discriminate |].
    injection E as <- E.
    apply Il. simpl. do 5 right. left; reflexivity. }
  split.
  - destruct (checkRoomUrl _) eqn:C; [exfalso | reflexivity].
    apply checkRoomUrl_iff in C
      as (scheme & label & room' & E & Hs & [Nl Il] & _).
    destruct Hs as [-> | ->]; simpl in E; [discriminate |].
    injection E as E. exact (B label room' E Nl Il).
  - destruct (checkRoomUrl _) eqn:C; [exfalso | reflexivity].
    apply checkRoomUrl_iff in C
      as (scheme & label & room' & E & Hs & [Nl Il] & _).
    destruct Hs as [-> | ->]; simpl in E; [| discriminate].
    injection E as E. exact (B label room' E Nl Il).
Qed.

(** ** The landing step *)

(** X6.  An empty [room_url] parameter behaves as an absent one: the
    initial cells and the Next button are the same, with [roomUrl] null
    and the error flag clear. *)
Theorem empty_room_query_is_absent
  (su sa me sc om : option string) (st : AppState) :
  let blank := {| VITE_SERVER_URL := su; VITE_SERVER_AUTH := sa;
                  VITE_MANUAL_ROOM_ENTRY := me; VITE_SHOW_CONFIG := sc;
                  VITE_OPEN_MIC := om; roomQs := Some "" |} in
  let none := {| VITE_SERVER_URL := su; VITE_SERVER_AUTH := sa;
                 VITE_MANUAL_ROOM_ENTRY := me; VITE_SHOW_CONFIG := sc;
                 VITE_OPEN_MIC := om; roomQs := None |} in
  init blank = init none
  /\ roomUrl (init blank) = None
  /\ roomError (init blank) = false
  /\ next_disabled blank st = next_disabled none st.
Proof. repeat split; reflexivity. Qed.

(** X7.  After [handleRoomUrl] on the landing step the error flag is set
    exactly when the state has not moved, and the other four cells are
    as they were. *)
Theorem handleRoomUrl_flag_iff_refused (env : Env) (w : World) (st : AppState) :
  state st = State.idle ->
  let st' := after env w st ClickNext in
  (roomError st' = true <-> state st' = State.idle)
  /\ (roomError st' = false <-> state st' = State.configuring)
  /\ error st' = error st
  /\ startAudioOff st' = startAudioOff st
  /\ roomUrl st' = roomUrl st
  /\ capacityError st' = capacityError st.
Proof.
  intros I. unfold after; simpl handler. unfold handleRoomUrl.
  destruct (_ || _); simpl; rewrite ?I;
    repeat split; intros; try reflexivity; discriminate.
Qed.

Lemma handleRoomUrl_flag_iff_refused_witness :
  let st' := after env_landing (world true Rejected Rejected)
               (init env_landing) ClickNext in
  (roomError st' = true <-> state st' = State.idle)
  /\ (roomError st' = false <-> state st' = State.configuring)
  /\ error st' = error (init env_landing)
  /\ startAudioOff st' = startAudioOff (init env_landing)
  /\ roomUrl st' = roomUrl (init env_landing)
  /\ capacityError st' = capacityError (init env_landing).
Proof.
  apply (@handleRoomUrl_flag_iff_refused env_landing
           (world true Rejected Rejected) (init env_landing)).
  reflexivity.
Defined.

(** X9.  With the landing step shown and a query-string room URL that
    does not validate, the component never leaves [idle]: the Next button
    is disabled in every reachable render, and editing the room URL does
    not bring it back. *)
Theorem invalid_room_query_blocks_landing (env : Env) (q : string)
  (st : AppState) :
  truthy (showConfigOptions env) = true ->
  roomQs env = Some q ->
  q <> "" ->
  checkRoomUrl (Some q) = false ->
  Reachable env st ->
  state st = State.idle
  /\ roomError st = false
  /\ next_disabled env st = true.
Proof.
  intros S Q N C R.
  assert (T : truthy (of_nullable (roomQs env)) = true).
  { rewrite Q. apply truthy_str; assumption. }
  assert (D : forall s, roomError s = false -> next_disabled env s = true).
  { intros s E. unfold next_disabled. rewrite T, E. reflexivity. }
  assert (K : state st = State.idle /\ roomError st = false).
  { induction R as [| st st0 a w e R [I E] R0 [I0 E0] O In_e].
    - unfold init; simpl. rewrite S, T, Q, C. split; reflexivity.
    - unfold offered in O. rewrite I0 in O.
      destruct a; try discriminate.
      + rewrite (D st0 E0) in O. discriminate.
      + simpl in In_e. destruct In_e as [<- | []]. simpl. auto. }
  destruct K as [I E]. auto.
Qed.

Lemma invalid_room_query_blocks_landing_witness :
  state (after (env_server (Some "nowhere")) (world true Rejected Rejected)
           (init (env_server (Some "nowhere")))
           (EditRoomUrl (Some "https://foo.daily.co/room1")))
  = State.idle
  /\ roomError
       (after (env_server (Some "nowhere")) (world true Rejected Rejected)
          (init (env_server (Some "nowhere")))
          (EditRoomUrl (Some "https://foo.daily.co/room1")))
     = false
  /\ next_disabled (env_server (Some "nowhere"))
       (after (env_server (Some "nowhere")) (world true Rejected Rejected)
          (init (env_server (Some "nowhere")))
          (EditRoomUrl (Some "https://foo.daily.co/room1")))
     = true.
Proof.
  apply (@invalid_room_query_blocks_landing
           (env_server (Some "nowhere")) "nowhere").
  - reflexivity.
  - reflexivity.
  - discriminate.
  - reflexivity.
  - apply reachable_after; [apply reach_init | reflexivity].
Defined.

(** ** Starting a session *)

Ltac start_cases env w :=
  unfold start, request_agent, report_capacity;
  destruct (negb (daily w) || _) eqn:?; simpl;
  [| destruct (truthy (of_optional (VITE_SERVER_URL env))) eqn:?; simpl;
     [ destruct (create_room w) as [[? |] |] eqn:?; simpl;
       [ match goal with
         | |- context [truthy (Response.error ?x)] =>
             destruct (truthy (Response.error x)) eqn:?; simpl;
             [| destruct (Response.result x) as [? |] eqn:?; simpl;
                [ destruct (join w) as [[] |] eqn:?; simpl |] ]
         end
       | | ]
     | destruct (join w) as [[] |] eqn:?; simpl ] ].

(** X10.  [start] makes no call at all exactly when there is no call
    object, or when [roomUrl] is empty while manual room entry is forced;
    in every other case it makes at least one. *)
Theorem start_silent_iff_guarded (env : Env) (w : World) (st : AppState) :
  events (start env w st) = [] <->
  daily w = false
  \/ (truthy (of_nullable (roomUrl st)) = false /\ autoRoomCreation env = false).
Proof.
  split.
  - start_cases env w; try discriminate.
    intros _.
    destruct (daily w); [right | left; reflexivity].
    simpl in *.
    match goal with H : _ && _ = true |- _ =>
      apply andb_true_iff in H as [H1 H2] end.
    split; [destruct (truthy _) | destruct (autoRoomCreation env)];
      simpl in *; congruence.
  - intros [D | [T A]]; unfold start.
    + rewrite D. reflexivity.
    + rewrite T, A. rewrite orb_true_r. reflexivity.
Qed.

(** X11.  Once past its guard, [start] ends in one of three ways, and the
    cells tell which: [connected] after one join that resolved, [error]
    with a message after one join that rejected, or [configuring] with the
    capacity message and no join at all.  It never stops in
    [requesting_agent] or [connecting]. *)
Theorem start_ends_settled (env : Env) (w : World) (st : AppState) :
  start_proceeds env w st ->
  let st' := after env w st ClickStart in
  (state st' = State.connected
   /\ (exists u, join w = Fulfilled u)
   /\ length (joins (events (start env w st))) = 1
   /\ error st' = error st
   /\ capacityError st' = capacityError st)
  \/ (state st' = State.error
      /\ join w = Rejected
      /\ length (joins (events (start env w st))) = 1
      /\ (exists msg, error st' = Some msg)
      /\ capacityError st' = capacityError st)
  \/ (state st' = State.configuring
      /\ truthy (of_optional (VITE_SERVER_URL env)) = true
      /\ joins (events (start env w st)) = []
      /\ error st' = error st
      /\ capacityError st' = capacity_message).
Proof.
  intros G. pose proof (start_guard_passes G) as P.
  unfold after; simpl handler.
  start_cases env w; try congruence;
    try (left; repeat split; eauto; fail);
    try (right; left; repeat split; eauto; fail);
    try (right; right; repeat split; eauto; fail).
Qed.

Lemma start_ends_settled_witness :
  let env := env_server None in
  let w := world true (Fulfilled (Some response_capacity)) (Fulfilled tt) in
  let st := init env in
  let st' := after env w st ClickStart in
  (state st' = State.connected
   /\ (exists u, join w = Fulfilled u)
   /\ length (joins (events (start env w st))) = 1
   /\ error st' = error st
   /\ capacityError st' = capacityError st)
  \/ (state st' = State.error
      /\ join w = Rejected
      /\ length (joins (events (start env w st))) = 1
      /\ (exists msg, error st' = Some msg)
      /\ capacityError st' = capacityError st)
  \/ (state st' = State.configuring
      /\ truthy (of_optional (VITE_SERVER_URL env)) = true
      /\ joins (events (start env w st)) = []
      /\ error st' = error st
      /\ capacityError st' = capacity_message).
Proof.
  apply (@start_ends_settled (env_server None)
           (world true (Fulfilled (Some response_capacity)) (Fulfilled tt))
           (init (env_server None))).
  split; [reflexivity | right; reflexivity].
Defined.

(** X12.  One run of [start] asks for a room at most once, starts the bot
    at most once and joins at most once: nothing is retried. *)
Theorem start_never_retries (env : Env) (w : World) (st : AppState) :
  occurrences is_create_room (events (start env w st)) <= 1
  /\ occurrences is_start_bot (events (start env w st)) <= 1
  /\ occurrences is_join (events (start env w st)) <= 1.
Proof.
  start_cases env w; unfold occurrences; simpl; repeat split; lia.
Qed.

(** X13.  The bot is started only in a run that goes on to join, and only
    after the room was asked for.  It is sent the url and token of the
    response as they are; the join falls back to [roomUrl] and to the empty
    token where those are falsy, so the two agree whenever both fields of
    the response are non-empty. *)
Theorem start_bot_then_join
  (env : Env) (w : World) (st : AppState)
  (endpoint authorization : string) (room tok : JsVal) :
  In (FetchStartBot endpoint authorization room tok)
     (events (start env w st)) ->
  In (DailyJoin (jor room (of_nullable (roomUrl st))) (jor tok (str ""))
        false (startAudioOff st))
     (events (start env w st))
  /\ occurrences is_create_room (events (start env w st)) = 1
  /\ endpoint = (to_string (serverUrl env) ++ "start_bot")%string
  /\ authorization = ("Bearer " ++ to_string (serverAuth env))%string
  /\ exists d, create_room w = Fulfilled (Some d)
               /\ Response.result d
                  = Some {| Response.url := room; Response.token := tok |}.
Proof.
  start_cases env w; intros H; in_cases;
    match goal with
    | H : FetchStartBot _ _ _ _ = FetchStartBot _ _ _ _ |- _ =>
        injection H as <- <- <- <-
    end;
    unfold opt_result_url, opt_result_token, opt_result;
    match goal with
    | R : Response.result _ = Some ?r |- _ => rewrite ?R; destruct r
    end;
    simpl Response.url; simpl Response.token;
    (split; [do 4 right; left; reflexivity |]);
    (split; [reflexivity |]);
    (split; [reflexivity |]);
    (split; [reflexivity |]);
    eexists; split; reflexivity || eassumption.
Qed.

Lemma start_bot_then_join_witness :
  let env := env_server None in
  let w := world true
             (Fulfilled (Some (response_ok "https://foo.daily.co/room1" "tok")))
             (Fulfilled tt) in
  let st := init env in
  In (DailyJoin
        (jor (str "https://foo.daily.co/room1") (of_nullable (roomUrl st)))
        (jor (str "tok") (str "")) false (startAudioOff st))
     (events (start env w st))
  /\ occurrences is_create_room (events (start env w st)) = 1
  /\ "https://api.example.com/start_bot"
     = (to_string (serverUrl env) ++ "start_bot")%string
  /\ "Bearer secret" = ("Bearer " ++ to_string (serverAuth env))%string
  /\ exists d, create_room w = Fulfilled (Some d)
               /\ Response.result d
                  = Some {| Response.url := str "https://foo.daily.co/room1";
                            Response.token := str "tok" |}.
Proof.
  apply (@start_bot_then_join (env_server None)
           (world true
              (Fulfilled (Some (response_ok "https://foo.daily.co/room1" "tok")))
              (Fulfilled tt))
           (init (env_server None))
           "https://api.example.com/start_bot" "Bearer secret"
           (str "https://foo.daily.co/room1") (str "tok")).
  simpl. right; right; left; reflexivity.
Defined.

(** X14.  Every join is an audio-only join on the provisioned room when
    the response names one, and on [roomUrl] otherwise; the microphone
    setting is the one of the render that showed the Start button. *)
Theorem join_arguments
  (env : Env) (w : World) (st : AppState) (u t : JsVal) (video audioOff : bool) :
  In (DailyJoin u t video audioOff) (events (start env w st)) ->
  u = jor (provisioned_url env w) (of_nullable (roomUrl st))
  /\ video = false
  /\ audioOff = startAudioOff st.
Proof.
  unfold provisioned_url.
  start_cases env w; intros H;
    repeat (destruct H as [H | H]; try discriminate H);
    try contradiction;
    injection H as <- <- <- <-; repeat split.
Qed.

Lemma join_arguments_witness :
  str "https://foo.daily.co/room1"
  = jor (provisioned_url (env_server None)
           (world true
              (Fulfilled (Some (response_ok "https://foo.daily.co/room1" "tok")))
              (Fulfilled tt)))
        (of_nullable (roomUrl (init (env_server None))))
  /\ false = false
  /\ false = startAudioOff (init (env_server None)).
Proof.
  apply (@join_arguments (env_server None)
           (world true
              (Fulfilled (Some (response_ok "https://foo.daily.co/room1" "tok")))
              (Fulfilled tt))
           (init (env_server None))
           (str "https://foo.daily.co/room1") (str "tok") false false).
  simpl. do 4 right. left; reflexivity.
Defined.

(** X15.  With no provisioning backend [start] talks to the call object
    only: it sets [connecting], joins [roomUrl] with the empty token, and
    ends in [connected] or, with a message naming [roomUrl], in [error].
    Nothing is fetched and the capacity message is not touched. *)
Theorem start_direct_join (env : Env) (w : World) (st : AppState) :
  start_proceeds env w st ->
  truthy (of_optional (VITE_SERVER_URL env)) = false ->
  events (start env w st)
  = [SetState State.connecting;
     DailyJoin (of_nullable (roomUrl st)) (str "") false (startAudioOff st)]
    ++ after_join w
         ("Unable to join room: '" ++ to_string (of_nullable (roomUrl st))
          ++ "'")
  /\ occurrences is_create_room (events (start env w st)) = 0
  /\ occurrences is_start_bot (events (start env w st)) = 0
  /\ capacityError (after env w st ClickStart) = capacityError st.
Proof.
  intros G S. pose proof (start_guard_passes G) as P.
  unfold after, after_join; simpl handler.
  start_cases env w; try congruence; repeat split.
Qed.

Lemma start_direct_join_witness :
  let env := env_bare in
  let w := world true Rejected Rejected in
  let st := apply_event (init env_bare)
              (SetRoomUrl (Some "https://foo.daily.co/room1")) in
  events (start env w st)
  = [SetState State.connecting;
     DailyJoin (of_nullable (roomUrl st)) (str "") false (startAudioOff st)]
    ++ after_join w
         ("Unable to join room: '" ++ to_string (of_nullable (roomUrl st))
          ++ "'")
  /\ occurrences is_create_room (events (start env w st)) = 0
  /\ occurrences is_start_bot (events (start env w st)) = 0
  /\ capacityError (after env w st ClickStart) = capacityError st.
Proof.
  apply (@start_direct_join env_bare (world true Rejected Rejected)
           (apply_event (init env_bare)
              (SetRoomUrl (Some "https://foo.daily.co/room1")))).
  - split; [reflexivity | left; reflexivity].
  - reflexivity.
Defined.

(** X16.  [start] stores nothing about the room: whatever provisioning
    returns, [roomUrl], [roomError] and [startAudioOff] are after the run
    what they were before. *)
Theorem start_keeps_room_cells (env : Env) (w : World) (st : AppState) :
  roomUrl (after env w st ClickStart) = roomUrl st
  /\ roomError (after env w st ClickStart) = roomError st
  /\ startAudioOff (after env w st ClickStart) = startAudioOff st.
Proof.
  unfold after; simpl handler.
  start_cases env w; repeat split.
Qed.

(** X17.  A body that is falsy, or that has neither [error] nor [result],
    is handled as a failure: reading [data.result.url] throws inside the
    [try], the bot is not started, no join is made, and [start] is back in
    [configuring] with the capacity message. *)
Theorem start_malformed_body (env : Env) (w : World) (st : AppState) :
  start_proceeds env w st ->
  truthy (of_optional (VITE_SERVER_URL env)) = true ->
  (create_room w = Fulfilled None
   \/ exists d, create_room w = Fulfilled (Some d)
                /\ Response.result d = None) ->
  state (after env w st ClickStart) = State.configuring
  /\ capacityError (after env w st ClickStart) = capacity_message
  /\ joins (events (start env w st)) = []
  /\ occurrences is_start_bot (events (start env w st)) = 0.
Proof.
  intros G S F.
  pose proof (provisioning_malformed_returns_to_configuring G S F) as E.
  unfold after; simpl handler. rewrite E. repeat split.
Qed.

Lemma start_malformed_body_witness :
  let env := env_server None in
  let w := world true
             (Fulfilled (Some {| Response.error := undefined;
                                 Response.result := None;
                                 Response.room_url := undefined |}))
             (Fulfilled tt) in
  let st := init env in
  state (after env w st ClickStart) = State.configuring
  /\ capacityError (after env w st ClickStart) = capacity_message
  /\ joins (events (start env w st)) = []
  /\ occurrences is_start_bot (events (start env w st)) = 0.
Proof.
  apply (@start_malformed_body (env_server None)
           (world true
              (Fulfilled (Some {| Response.error := undefined;
                                  Response.result := None;
                                  Response.room_url := undefined |}))
              (Fulfilled tt))
           (init (env_server None))).
  - split; [reflexivity | right; reflexivity].
  - reflexivity.
  - right. eexists. split; reflexivity.
Defined.

(** ** A whole session *)

(** X18.  A session that is started and left gives back the cells it
    began with: after a [start] that connects, the Leave control is the
    one on offer, and a [leave] that completes changes nothing but
    [state], which is the initial one again. *)
Theorem session_round_trip (env : Env) (w w' : World) (st : AppState) :
  start_proceeds env w st ->
  provisioning_passes env w ->
  join w = Fulfilled tt ->
  leave_completes w' ->
  state (after env w st ClickStart) = State.connected
  /\ offered env (after env w st ClickStart) ClickLeave = true
  /\ offered env (after env w st ClickStart) ClickStart = false
  /\ after env w' (after env w st ClickStart) ClickLeave
     = with_state st (state (init env)).
Proof.
  intros G P J L. pose proof (start_guard_passes G) as Gd.
  assert (E : after env w st ClickStart = with_state st State.connected).
  { unfold after; simpl handler.
    destruct P as [S | (d & r & C & Err & R)].
    - start_cases env w; try congruence; reflexivity.
    - start_cases env w; try congruence; reflexivity. }
  rewrite E. repeat split.
  unfold after; simpl handler. unfold leave, init; simpl.
  destruct L as [D | (a & b & La & Lb)].
  - rewrite D. simpl. destruct (truthy (showConfigOptions env)); reflexivity.
  - rewrite La, Lb. destruct (daily w'); simpl;
      destruct (truthy (showConfigOptions env)); reflexivity.
Qed.

Lemma session_round_trip_witness :
  let env := env_server None in
  let w := world true
             (Fulfilled (Some (response_ok "https://foo.daily.co/room1" "tok")))
             (Fulfilled tt) in
  let st := with_state (init env) State.configuring in
  state (after env w st ClickStart) = State.connected
  /\ offered env (after env w st ClickStart) ClickLeave = true
  /\ offered env (after env w st ClickStart) ClickStart = false
  /\ after env w (after env w st ClickStart) ClickLeave
     = with_state st (state (init env)).
Proof.
  apply (@session_round_trip (env_server None)
           (world true
              (Fulfilled (Some (response_ok "https://foo.daily.co/room1" "tok")))
              (Fulfilled tt))
           (world true
              (Fulfilled (Some (response_ok "https://foo.daily.co/room1" "tok")))
              (Fulfilled tt))
           (with_state (init (env_server None)) State.configuring)).
  - split; [reflexivity | right; reflexivity].
  - right. eexists. eexists. repeat split; reflexivity.
  - reflexivity.
  - right. exists tt, tt. split; reflexivity.
Defined.

(** X19.  When [daily.leave()] or [daily.destroy()] rejects, [leave]
    stops there: no cell changes, so the session view stays up, and after
    a rejected [leave] the call object is not destroyed. *)
Theorem leave_rejection_stops (env : Env) (w : World) (st : AppState) :
  daily w = true ->
  leave_settles w = Rejected \/ destroy_settles w = Rejected ->
  after env w st ClickLeave = st
  /\ states_set (events (leave env w)) = []
  /\ occurrences is_leave (events (leave env w)) = 1
  /\ occurrences is_destroy (events (leave env w))
     = match leave_settles w with Rejected => 0 | Fulfilled _ => 1 end.
Proof.
  intros D R. unfold after; simpl handler; unfold leave. rewrite D.
  destruct (leave_settles w) as [[] |]; simpl; [| repeat split].
  destruct (destroy_settles w) as [[] |]; simpl; [| repeat split].
  destruct R; discriminate.
Qed.

Lemma leave_rejection_stops_witness :
  let env := env_landing in
  let w := {| daily := true; create_room := Rejected; join := Fulfilled tt;
              leave_settles := Rejected; destroy_settles := Fulfilled tt |} in
  let st := with_state (init env_landing) State.connected in
  after env w st ClickLeave = st
  /\ states_set (events (leave env w)) = []
  /\ occurrences is_leave (events (leave env w)) = 1
  /\ occurrences is_destroy (events (leave env w))
     = match leave_settles w with Rejected => 0 | Fulfilled _ => 1 end.
Proof.
  apply (@leave_rejection_stops env_landing
           {| daily := true; create_room := Rejected; join := Fulfilled tt;
              leave_settles := Rejected; destroy_settles := Fulfilled tt |}
           (with_state (init env_landing) State.connected)).
  - reflexivity.
  - left; reflexivity.
Defined.

Lemma next_proceeding_clears_flag (env : Env) (w : World) (st : AppState) :
  state st = State.idle ->
  state (after env w st ClickNext) = State.configuring ->
  roomError (after env w st ClickNext) = false.
Proof.
  intros I. unfold after; simpl handler. unfold handleRoomUrl.
  destruct (_ || _); simpl; [reflexivity |].
  rewrite I. discriminate.
Qed.

Lemma start_connects (env : Env) (w : World) (st : AppState) :
  start_proceeds env w st ->
  provisioning_passes env w ->
  join w = Fulfilled tt ->
  after env w st ClickStart = with_state st State.connected.
Proof.
  intros G P J. pose proof (start_guard_passes G) as Gd.
  unfold after; simpl handler.
  destruct P as [S | (d & r & C & Err & R)];
    start_cases env w; try congruence; reflexivity.
Qed.

Lemma leave_resets (env : Env) (w : World) (st : AppState) :
  leave_completes w ->
  after env w st ClickLeave = with_state st (start_state env).
Proof.
  intros L. unfold after, start_state; simpl handler. unfold leave.
  destruct L as [D | (a & b & La & Lb)].
  - rewrite D. reflexivity.
  - rewrite La, Lb. destruct (daily w); reflexivity.
Qed.

(** X8.  With the landing step shown and a room URL in the query string,
    the Next button works once.  After a Next click that goes through, a
    session that connects and a [leave] that completes, the room card is
    on screen again with its Next button disabled: [handleRoomUrl]
    cleared the flag that kept the button live, and nothing sets it
    back. *)
Theorem next_dead_after_round_trip
  (env : Env) (w1 w2 w3 : World) (st : AppState) :
  truthy (of_nullable (roomQs env)) = true ->
  truthy (showConfigOptions env) = true ->
  state st = State.idle ->
  state (after env w1 st ClickNext) = State.configuring ->
  start_proceeds env w2 (after env w1 st ClickNext) ->
  provisioning_passes env w2 ->
  join w2 = Fulfilled tt ->
  leave_completes w3 ->
  let back := after env w3
                (after env w2 (after env w1 st ClickNext) ClickStart)
                ClickLeave in
  view back = RoomSetupCard
  /\ next_disabled env back = true
  /\ offered env back ClickNext = false
  /\ roomUrl back = roomUrl st.
Proof.
  intros Q S I C G P J L.
  pose proof (@next_proceeding_clears_flag env w1 st I C) as F.
  assert (U : roomUrl (after env w1 st ClickNext) = roomUrl st).
  { unfold after; simpl handler. unfold handleRoomUrl.
    destruct (_ || _); reflexivity. }
  rewrite (@start_connects env w2 _ G P J), (@leave_resets env w3 _ L).
  unfold start_state. rewrite S.
  unfold view, offered, next_disabled, with_state; simpl.
  rewrite Q, F, U. repeat split.
Qed.

Lemma next_dead_after_round_trip_witness :
  let env := env_server (Some "https://foo.daily.co/room1") in
  let w := world true
             (Fulfilled (Some (response_ok "https://bar.daily.co/room2" "tok")))
             (Fulfilled tt) in
  let back := after env w
                (after env w (after env w (init env) ClickNext) ClickStart)
                ClickLeave in
  view back = RoomSetupCard
  /\ next_disabled env back = true
  /\ offered env back ClickNext = false
  /\ roomUrl back = roomUrl (init env).
Proof.
  apply (@next_dead_after_round_trip
           (env_server (Some "https://foo.daily.co/room1"))
           (world true
              (Fulfilled (Some (response_ok "https://bar.daily.co/room2" "tok")))
              (Fulfilled tt))
           (world true
              (Fulfilled (Some (response_ok "https://bar.daily.co/room2" "tok")))
              (Fulfilled tt))
           (world true
              (Fulfilled (Some (response_ok "https://bar.daily.co/room2" "tok")))
              (Fulfilled tt))
           (init (env_server (Some "https://foo.daily.co/room1")))).
  - reflexivity.
  - reflexivity.
  - reflexivity.
  - reflexivity.
  - split; [reflexivity | left; reflexivity].
  - right. eexists. eexists. repeat split; reflexivity.
  - reflexivity.
  - right. exists tt, tt. split; reflexivity.
Defined.

(** ** What the cells can hold *)

Lemma handler_capacity_message
  (env : Env) (w : World) (st : AppState) (a : Action) (m : string) :
  In (SetCapacityError m) (events (handler env w st a)) ->
  m = capacity_message.
Proof.
  destruct a; simpl.
  - unfold handleRoomUrl. destruct (_ || _); simpl; intros H; in_cases.
  - start_cases env w; intros H;
      repeat (destruct H as [H | H]; try discriminate H);
      try contradiction; injection H as <-; reflexivity.
  - unfold leave. destruct (daily w); simpl;
      destruct (leave_settles w); simpl;
      destruct (destroy_settles w); simpl; intros H; in_cases.
  - intros H; in_cases.
  - intros H; in_cases.
Qed.

(** X20.  [capacityError] is only ever empty or the one static message,
    and no handler clears it: once the notice is up, no later call of any
    handler, a successful [start] or a [leave] included, takes it down. *)
Theorem capacity_notice_sticks (env : Env) (st : AppState) :
  Reachable env st ->
  (capacityError st = "" \/ capacityError st = capacity_message)
  /\ forall w st0 a e,
       In e (events (handler env w st0 a)) ->
       capacityError st = capacity_message ->
       capacityError (apply_event st e) = capacity_message.
Proof.
  intros R. split.
  - induction R as [| st st0 a w e R IH R0 _ O I].
    + left; reflexivity.
    + destruct e; simpl; try exact IH.
      right. eapply handler_capacity_message; eassumption.
  - intros w st0 a e I C.
    destruct e; simpl; try exact C.
    eapply handler_capacity_message; eassumption.
Qed.

Lemma capacity_notice_sticks_witness :
  let env := env_server None in
  let st := after env (world true Rejected Rejected) (init env) ClickNext in
  (capacityError st = "" \/ capacityError st = capacity_message)
  /\ forall w st0 a e,
       In e (events (handler env w st0 a)) ->
       capacityError st = capacity_message ->
       capacityError (apply_event st e) = capacity_message.
Proof.
  apply (@capacity_notice_sticks (env_server None)).
  apply reachable_after; [apply reach_init | reflexivity].
Defined.

(** ** Handlers in flight *)

Lemma message_first_mono (tr : list Event) (have : bool) :
  message_first have tr = true -> message_first true tr = true.
Proof.
  revert have; induction tr as [| e tr IH]; intros have; simpl; [auto |].
  destruct e; eauto.
  destruct s; eauto.
  intros H. apply andb_true_iff in H as [_ H]. simpl. eauto.
Qed.

(** Every handler that sets the state to [error] sets the message first. *)
Lemma handler_message_first
  (env : Env) (w : World) (st : AppState) (a : Action) :
  message_first false (events (handler env w st a)) = true.
Proof.
  destruct a; simpl.
  - unfold handleRoomUrl. destruct (_ || _); reflexivity.
  - start_cases env w; reflexivity.
  - unfold leave. destruct (daily w); simpl;
      destruct (leave_settles w); simpl;
      destruct (destroy_settles w); simpl;
      destruct (truthy (showConfigOptions env)); reflexivity.
  - reflexivity.
  - reflexivity.
Qed.

Lemma message_held_step (env : Env) (c c' : Config) :
  Step env c c' -> message_held c -> message_held c'.
Proof.
  intros S [I F]. destruct S as [st pool a w O | st before e rest after_];
    unfold message_held; simpl fst in *; simpl snd in *.
  - split; [exact I |]. constructor; [| exact F].
    destruct (has_message st).
    + apply message_first_mono with (have := false).
      apply handler_message_first.
    + apply handler_message_first.
  - apply Forall_app in F as [Fb Fr].
    apply Forall_cons_iff in Fr as [Fe Fa].
    assert (W : forall h,
               (forall tr, message_first (has_message st) tr = true ->
                           message_first h tr = true) ->
               message_first h rest = true ->
               Forall (fun tr => message_first h tr = true)
                 (before ++ rest :: after_)).
    { intros h M R. apply Forall_app. split.
      - eapply Forall_impl; [| exact Fb]. intros tr; apply M.
      - constructor; [exact R |].
        eapply Forall_impl; [| exact Fa]. intros tr; apply M. }
    destruct e; simpl in *;
      try (split; [exact I | apply W; [auto | exact Fe]]).
    + (* setState *)
      destruct s; simpl in *;
        try (split; [discriminate | apply W; [auto | exact Fe]]).
      apply andb_true_iff in Fe as [H Fe].
      split; [intros _; exact H | apply W; [auto | exact Fe]].
    + (* setError *)
      split; [reflexivity |].
      apply W; [| exact Fe].
      intros tr. apply message_first_mono.
Qed.

(** X21.  Whenever the alert is on screen there is a message in it: in
    every schedule of the handlers, [state] is [error] only while [error]
    holds a string. *)
Theorem alert_has_message (env : Env) (st : AppState)
  (pool : list (list Event)) :
  Runs env (st, pool) ->
  view st = AlertView ->
  exists msg, error st = Some msg.
Proof.
  intros R V.
  assert (H : message_held (st, pool)).
  { remember (st, pool) as c eqn:E. clear E V.
    induction R as [| c c' R IH S].
    - split; simpl; [| constructor].
      destruct (truthy (showConfigOptions env)); discriminate.
    - eapply message_held_step; eassumption. }
  destruct H as [I _]. simpl in I.
  assert (E : state st = State.error).
  { unfold view in V. destruct (state st); simpl in V;
      try discriminate; reflexivity. }
  specialize (I E). unfold has_message in I.
  destruct (error st) as [msg |]; [eauto | discriminate].
Qed.

Lemma alert_has_message_witness :
  exists msg,
    error (apply_events (init env_bare)
             (events (start env_bare (world true Rejected Rejected)
                        (init env_bare))))
    = Some msg.
Proof.
  apply (@alert_has_message env_bare
           (apply_events (init env_bare)
              (events (start env_bare (world true Rejected Rejected)
                         (init env_bare))))
           [[]]).
  - eapply runs_step.
    { eapply runs_step.
      { eapply runs_step.
        { eapply runs_step.
          { eapply runs_step.
            { apply runs_init. }
            apply (@step_click env_bare (init env_bare) [] ClickStart
                     (world true Rejected Rejected)).
            reflexivity. }
          apply (@step_call env_bare _ [] _ _ []). }
        apply (@step_call env_bare _ [] _ _ []). }
      apply (@step_call env_bare _ [] _ _ []). }
    apply (@step_call env_bare _ [] _ _ []).
  - reflexivity.
Defined.

(** Every schedule stays within the reachable cells, so what holds of
    those holds in every schedule. *)
Lemma runs_reachable (env : Env) (c : Config) :
  Runs env c -> Reachable env (fst c) /\ Forall (from_offered env) (snd c).
Proof.
  induction 1 as [| c c' R [IHr IHf] S]; simpl.
  - split; [apply reach_init | constructor].
  - destruct S as [st pool a w O | st before e rest after_]; simpl in *.
    + split; [exact IHr |]. constructor; [| exact IHf].
      exists st, a, w, []. auto.
    + apply Forall_app in IHf as [Fb Fr].
      apply Forall_cons_iff in Fr as [Fe Fa].
      destruct Fe as (st0 & a & w & pre & R0 & O & E).
      split.
      * eapply reach_event; [exact IHr | exact R0 | exact O |].
        rewrite E. apply in_or_app; right; left; reflexivity.
      * apply Forall_app. split; [exact Fb |].
        constructor; [| exact Fa].
        exists st0, a, w, (pre ++ [e]). rewrite <- app_assoc. auto.
Qed.

(** ** The device card *)

Lemma reachable_live (env : Env) (st : AppState) :
  Reachable env st -> In (state st) live_states.
Proof.
  induction 1 as [| st st0 a w e R IH R0 _ O I].
  - apply init_live.
  - destruct e; simpl; try exact IH.
    eapply handler_sets_live; eassumption.
Qed.

(** X22.  Whenever the device card is on screen, in any schedule, its
    button has a label: [status_text] has an entry for the state.  The
    entry for [requesting_token] is never the one shown, and the label is
    the inviting one exactly when the button is live. *)
Theorem start_button_labelled (env : Env) (st : AppState)
  (pool : list (list Event)) :
  Runs env (st, pool) ->
  view st = ConfigureCard ->
  exists label,
    start_label st = Some label
    /\ label <> "Requesting token..."
    /\ (start_disabled st = false <-> label = "Let's go!").
Proof.
  intros R V. apply runs_reachable in R as [R _]. simpl in R.
  apply reachable_live in R.
  unfold view in V. unfold start_label, start_disabled, live_states in *.
  simpl in R.
  destruct R as [E | [E | [E | [E | [E | [E | []]]]]]];
    rewrite <- E in *; simpl in *; try discriminate;
    eexists; (split; [reflexivity |]);
    (split; [discriminate |]); split; intros; try reflexivity; discriminate.
Qed.

Lemma start_button_labelled_witness :
  exists label,
    start_label (init env_bare) = Some label
    /\ label <> "Requesting token..."
    /\ (start_disabled (init env_bare) = false <-> label = "Let's go!").
Proof.
  apply (@start_button_labelled env_bare (init env_bare) []).
  - apply runs_init.
  - reflexivity.
Defined.



(** X24.  The microphone toggle reads the cell of the render it was made
    in: toggling in two successive renders restores the setting, while two
    toggles issued from one render both set the same value. *)
Theorem toggle_start_audio (env : Env) (w : World) (st : AppState) :
  after env w (after env w st ToggleStartAudioOff) ToggleStartAudioOff = st
  /\ startAudioOff
       (apply_events st
          (events (handler env w st ToggleStartAudioOff)
           ++ events (handler env w st ToggleStartAudioOff)))
     = negb (startAudioOff st).
Proof.
  split; [| reflexivity].
  unfold after; simpl. rewrite negb_involutive. destruct st; reflexivity.
Qed.
